(** * ECB block-repetition visualiser: a shallow embedding of [aes.py]

    The program reads raw ciphertext bytes, chunks them into fixed-size
    blocks, ranks the distinct blocks by frequency, gives each rank a palette
    colour and lays the colours out as a roughly square raster.

    Python integers are unbounded, so they are [Z]; [//] and [%] are floor
    division and the modulus with the sign of the divisor, which is what
    [Z.div] and [Z.modulo] compute, except at a zero divisor where Python
    raises.  [bytes] values are [list byte]; a [dict] (and the [Counter]
    built on it) is an association list in insertion order, because
    [sorted] sees that order.  Exceptions are an explicit result type and the
    calls into the file system and into PIL are recorded as a trace. *)

From Stdlib Require Import Strings.String Strings.Byte ZArith Bool List Lia.
From Stdlib Require Import Sorting.Sorted Sorting.Permutation.
Import ListNotations.
Local Open Scope Z_scope.

(** ** Exceptions and results *)

Inductive exn : Type :=
| ZeroDivisionError
| ValueError
| IndexError
| FileNotFoundError
| IsADirectoryError
| PermissionError
| OSError.

Inductive result (A : Type) : Type :=
| Ok (a : A)
| Raise (e : exn).
Arguments Ok {A} a.
Arguments Raise {A} e.

Definition rbind {A B} (m : result A) (f : A -> result B) : result B :=
  match m with
  | Ok a => f a
  | Raise e => Raise e
  end.

Declare Scope py_scope.
Delimit Scope py_scope with py.
Notation "x <-? m ;; k" := (rbind m (fun x => k))
  (at level 61, m at next level, right associativity) : py_scope.
Local Open Scope py_scope.

(** [for x in l: s = body s x], where the body may raise. *)
Fixpoint for_in {A S} (l : list A) (body : S -> A -> result S) (s : S)
  : result S :=
  match l with
  | [] => Ok s
  | x :: l' => s' <-? body s x ;; for_in l' body s'
  end.

(** ** The Python primitives the program uses *)

Module Py.

Definition len {A} (l : list A) : Z := Z.of_nat (length l).

(** [a // b] *)
Definition floordiv (a b : Z) : result Z :=
  if b =? 0 then Raise ZeroDivisionError else Ok (a / b).

(** [a % b] *)
Definition mod_ (a b : Z) : result Z :=
  if b =? 0 then Raise ZeroDivisionError else Ok (a mod b).

(** A slice bound: a negative bound counts from the end, and the result is
    clamped to [0, len]. *)
Definition bound {A} (l : list A) (i : Z) : nat :=
  Z.to_nat (Z.min (len l) (Z.max 0 (if i <? 0 then i + len l else i))).

(** [l[start:stop]] *)
Definition slice {A} (l : list A) (start stop : Z) : list A :=
  firstn (bound l stop - bound l start) (skipn (bound l start) l).

(** The number of elements of [range(start, stop, step)] for a non-zero
    step, as CPython computes it. *)
Definition range_len (start stop step : Z) : Z :=
  if (0 <? step) && (start <? stop) then 1 + (stop - 1 - start) / step
  else if (step <? 0) && (stop <? start) then 1 + (start - 1 - stop) / (- step)
  else 0.

Definition range_list (start stop step : Z) : list Z :=
  map (fun k => start + Z.of_nat k * step)
      (seq 0 (Z.to_nat (range_len start stop step))).

(** [range(start, stop, step)]; a zero step is a [ValueError]. *)
Definition range (start stop step : Z) : result (list Z) :=
  if step =? 0 then Raise ValueError else Ok (range_list start stop step).

(** [l[i]] *)
Definition index {A} (l : list A) (i : Z) : result A :=
  let j := if i <? 0 then i + len l else i in
  if j <? 0 then Raise IndexError
  else match nth_error l (Z.to_nat j) with
       | Some a => Ok a
       | None => Raise IndexError
       end.

(** [enumerate(l)] *)
Definition enumerate {A} (l : list A) : list (Z * A) :=
  combine (map Z.of_nat (seq 0 (length l))) l.

(** [int(math.sqrt(n))] for [n >= 0].  [math.sqrt] works on doubles; the
    rounded root truncates to the integer square root for every [n] below
    [2^52], far above the length of a list that fits in memory, so the
    integer square root stands for it. *)
Definition isqrt (n : Z) : Z := Z.sqrt n.

(** [sorted(l, key=key)]: a stable sort, ascending in the key.  The result
    of a stable sort is determined by the input, so insertion stands for
    CPython's merge sort. *)
Section Sorted.
Context {A : Type} (key : A -> Z).

Fixpoint insert (x : A) (s : list A) : list A :=
  match s with
  | [] => [x]
  | y :: s' => if key x <=? key y then x :: y :: s' else y :: insert x s'
  end.

Fixpoint sorted_asc (l : list A) : list A :=
  match l with
  | [] => []
  | x :: l' => insert x (sorted_asc l')
  end.

(** [sorted(l, key=key, reverse=reverse)]: CPython reverses the list,
    sorts it ascending and reverses the result, which keeps elements
    with equal keys in their original order. *)
Definition sorted (reverse : bool) (l : list A) : list A :=
  if reverse then rev (sorted_asc (rev l)) else sorted_asc l.
End Sorted.

End Py.

(** ** Dictionaries in insertion order *)

Module Dict.
Section Dict.
Context {K V : Type} (eqb : K -> K -> bool).

Definition t := list (K * V).

(** [d.get(k)] *)
Fixpoint get (d : t) (k : K) : option V :=
  match d with
  | [] => None
  | (k', v) :: d' => if eqb k k' then Some v else get d' k
  end.

(** [d.get(k, dflt)] *)
Definition get_default (d : t) (k : K) (dflt : V) : V :=
  match get d k with
  | Some v => v
  | None => dflt
  end.

(** [d[k] = v]: a key already present keeps its place. *)
Fixpoint set (d : t) (k : K) (v : V) : t :=
  match d with
  | [] => [(k, v)]
  | (k', v') :: d' =>
      if eqb k k' then (k', v) :: d' else (k', v') :: set d' k v
  end.

(** [d.items()] *)
Definition items (d : t) : list (K * V) := d.

Definition keys (d : t) : list K := map fst d.
End Dict.
End Dict.

(** ** Data *)

Definition bytes := list byte.
Definition block := bytes.
Definition color : Type := Z * Z * Z.

Definition white : color := (255, 255, 255).
Definition black : color := (0, 0, 0).

Fixpoint block_eqb (a b : block) : bool :=
  match a, b with
  | [], [] => true
  | x :: a', y :: b' => Byte.eqb x y && block_eqb a' b'
  | _, _ => false
  end.

Definition block_eq_dec : forall a b : block, {a = b} + {a <> b} :=
  list_eq_dec Byte.byte_eq_dec.

(** [Counter(iterable)]: one pass, [self[elem] = self.get(elem, 0) + 1]. *)
Definition Counter (l : list block) : Dict.t (K:=block) (V:=Z) :=
  fold_left
    (fun d b => Dict.set block_eqb d b (Dict.get_default block_eqb d b 0 + 1))
    l [].

(** ** Effects: the file system and PIL *)

Inductive event : Type :=
| EvOpen (path : string)
| EvNew (width height : Z)
| EvPoint (x y : Z) (c : color)
| EvSave (path : string)
| EvPrint (msg : string).

(** A computation that may raise and that leaves a trace of its calls. *)
Definition M (A : Type) : Type := result A * list event.

Definition ret {A} (a : A) : M A := (Ok a, []).

Definition emit (e : event) : M unit := (Ok tt, [e]).

Definition lift {A} (r : result A) : M A := (r, []).

Definition bind {A B} (m : M A) (f : A -> M B) : M B :=
  match m with
  | (Ok a, t) => let (r, t') := f a in (r, t ++ t')
  | (Raise e, t) => (Raise e, t)
  end.

Notation "x <- m ;; k" := (bind m (fun x => k))
  (at level 61, m at next level, right associativity) : py_scope.
Notation "m ;;; k" := (bind m (fun _ => k))
  (at level 61, right associativity) : py_scope.

(** [for x in l: body x] *)
Fixpoint for_each {A} (l : list A) (body : A -> M unit) : M unit :=
  match l with
  | [] => ret tt
  | x :: l' => body x ;;; for_each l' body
  end.

(** The part of the world a run touches: the bytes reading a path gives
    (for a path that can be opened and read), the exception [open] raises
    for a path that cannot, and the exception, if any, that saving an image
    to a path raises. *)
Record filesystem : Type := {
  contents :> string -> option bytes;
  open_error : string -> exn;
  save_error : string -> option exn
}.

(** [open(path, "rb")] followed by [read()]. *)
Definition open_read (fs : filesystem) (path : string) : M bytes :=
  match fs path with
  | Some data => (Ok data, [EvOpen path])
  | None => (Raise (open_error fs path), [EvOpen path])
  end.

(** [img.save(path)]: the call is recorded whether or not it raises. *)
Definition save_image (fs : filesystem) (path : string) : M unit :=
  match save_error fs path with
  | None => (Ok tt, [EvSave path])
  | Some e => (Raise e, [EvSave path])
  end.

(** ** The processor *)

Record ECBImageProcessor : Type := init {
  image_path : string;
  block_size : Z;
  max_colors : Z;
  flip : bool;
  pixels_per_block : Z
}.

(** The constructor's defaults, which are also the command line's. *)
Definition default_processor (path : string) : ECBImageProcessor :=
  init path 16 254 true 16.

Section Methods.
Variable self : ECBImageProcessor.

Definition read_image_bytes (fs : filesystem) : M bytes :=
  img_data <- open_read fs (image_path self) ;;
  r <- lift (Py.mod_ (Py.len img_data) (block_size self)) ;;
  ret (Py.slice img_data 0 (Py.len img_data - r)).

Definition break_into_blocks (img_data : bytes) : result (list block) :=
  idx <-? Py.range 0 (Py.len img_data) (block_size self) ;;
  Ok (map (fun i => Py.slice img_data i (i + block_size self)) idx).

Definition count_block_frequencies (img_blocks : list block)
  : Dict.t (K:=block) (V:=Z) :=
  Counter img_blocks.

Definition palette_color (i : Z) : color :=
  ((i * 50) mod 255, (i * 80) mod 255, (i * 110) mod 255).

Definition generate_color_palette : list color :=
  let color_palette := [white] in
  let color_palette :=
    fold_left (fun pal i => pal ++ [palette_color i])
              (Py.range_list 1 (max_colors self - 1) 1) color_palette in
  color_palette ++ [black].

Definition sorted_blocks (block_frequencies : Dict.t (K:=block) (V:=Z))
  : list (block * Z) :=
  Py.sorted snd true (Dict.items block_frequencies).

Definition assign_colors_to_blocks
    (block_frequencies : Dict.t (K:=block) (V:=Z))
    (color_palette : list color) : result (Dict.t (K:=block) (V:=color)) :=
  for_in (Py.enumerate (sorted_blocks block_frequencies))
    (fun block_color_map '(i, (blk, _)) =>
       if i <? Py.len color_palette - 1 then
         c <-? Py.index color_palette i ;;
         Ok (Dict.set block_eqb block_color_map blk c)
       else
         Ok (Dict.set block_eqb block_color_map blk black))
    [].

Definition map_blocks_to_colors (img_blocks : list block)
    (block_color_map : Dict.t (K:=block) (V:=color)) : result (list color) :=
  for_in img_blocks
    (fun pixel_colors blk =>
       let c := Dict.get_default block_eqb block_color_map blk black in
       n <-? Py.floordiv (block_size self) (pixels_per_block self) ;;
       Ok (fold_left (fun px _ => px ++ [c]) (Py.range_list 0 n 1)
                     pixel_colors))
    [].

Definition output_image_path : string :=
  (image_path self ++ "_image.png")%string.

Definition create_image (fs : filesystem) (pixel_colors : list color)
  : M unit :=
  let total_pixels := Py.len pixel_colors in
  let img_width := Py.isqrt total_pixels in
  q <- lift (Py.floordiv total_pixels img_width) ;;
  r <- lift (Py.mod_ total_pixels img_width) ;;
  let img_height := if negb (r =? 0) then q + 1 else q in
  emit (EvNew img_width img_height) ;;;
  for_each (Py.enumerate pixel_colors)
    (fun '(idx, c) =>
       let x_coord := idx mod img_width in
       let y_coord := idx / img_width in
       let y_coord := if flip self then img_height - y_coord - 1
                      else y_coord in
       if y_coord <? img_height then emit (EvPoint x_coord y_coord c)
       else ret tt) ;;;
  save_image fs output_image_path ;;;
  emit (EvPrint ("Image saved to " ++ output_image_path)%string).

Definition process_image (fs : filesystem) : M unit :=
  img_data <- read_image_bytes fs ;;
  img_blocks <- lift (break_into_blocks img_data) ;;
  let block_frequencies := count_block_frequencies img_blocks in
  let color_palette := generate_color_palette in
  block_color_map <-
    lift (assign_colors_to_blocks block_frequencies color_palette) ;;
  pixel_colors <- lift (map_blocks_to_colors img_blocks block_color_map) ;;
  create_image fs pixel_colors.
End Methods.

(** ** Observing a trace *)

Definition is_point (e : event) : bool :=
  match e with
  | EvPoint _ _ _ => true
  | _ => false
  end.

Definition is_save (e : event) : bool :=
  match e with
  | EvSave _ => true
  | _ => false
  end.

(** The number of pixels drawn into the image. *)
Definition rendered_pixels (t : list event) : Z :=
  Py.len (filter is_point t).

(** Whether the run got as far as saving an image. *)
Definition image_written (t : list event) : bool := existsb is_save t.

(** ** Observing a block sequence *)

(** The position at which a block is first seen (the length of the list for
    a block that does not occur). *)
Fixpoint first_index (blk : block) (l : list block) : nat :=
  match l with
  | [] => 0
  | x :: l' => if block_eqb blk x then 0 else S (first_index blk l')
  end.

(** How often a block occurs. *)
Definition occurrences (blk : block) (l : list block) : Z :=
  Py.len (filter (block_eqb blk) l).

(** ** Sample inputs *)

(** [n] zero bytes. *)
Definition zeros (n : nat) : bytes := repeat x00 n.

(** A file system in which every path holds [data] and every save
    succeeds. *)
Definition one_file (data : bytes) : filesystem :=
  {| contents := fun _ => Some data;
     open_error := fun _ => FileNotFoundError;
     save_error := fun _ => None |}.


(** The bytes 0, 1, ..., [n - 1] (for [n <= 256]). *)
Definition distinct_bytes (n : nat) : bytes :=
  map (fun k => match Byte.of_nat k with Some b => b | None => x00 end)
      (seq 0 n).

(** ** Further observations *)

(** [sum(d.values())] of a counter. *)
Definition total_count (d : Dict.t (K:=block) (V:=Z)) : Z :=
  fold_right (fun p acc => snd p + acc) 0 d.

(** A colour PIL accepts as an RGB triple of bytes. *)
Definition valid_rgb (c : color) : Prop :=
  let '(r, g, b) := c in
  0 <= r <= 255 /\ 0 <= g <= 255 /\ 0 <= b <= 255.

(** The coordinates of the points drawn, in drawing order. *)
Definition positions (t : list event) : list (Z * Z) :=
  flat_map (fun e => match e with
                     | EvPoint x y _ => [(x, y)]
                     | _ => []
                     end) t.

(** * Properties *)

(** ** Ranges, loops and slices *)

Lemma len_nonneg {A} (l : list A) : 0 <= Py.len l.
Proof. unfold Py.len. lia. Qed.

Lemma len_app {A} (l1 l2 : list A) : Py.len (l1 ++ l2) = Py.len l1 + Py.len l2.
Proof. unfold Py.len. rewrite length_app. lia. Qed.

Lemma range_len_step1 (start stop : Z) :
  Py.range_len start stop 1 = Z.max 0 (stop - start).
Proof.
  unfold Py.range_len.
  change (0 <? 1) with true. change (1 <? 0) with false.
  cbv [andb]. destruct (Z.ltb_spec start stop).
  - rewrite Z.div_1_r. lia.
  - lia.
Qed.

(** [range(start, stop)] counts up from [start], [stop - start] times. *)
Lemma range_list_step1 (start stop : Z) :
  Py.range_list start stop 1 =
  map (fun k => start + Z.of_nat k) (seq 0 (Z.to_nat (stop - start))).
Proof.
  unfold Py.range_list. rewrite range_len_step1.
  replace (Z.to_nat (Z.max 0 (stop - start))) with (Z.to_nat (stop - start))
    by lia.
  apply map_ext. intros k. lia.
Qed.

Lemma range_list_length (start stop : Z) :
  length (Py.range_list start stop 1) = Z.to_nat (stop - start).
Proof. rewrite range_list_step1, length_map, length_seq. reflexivity. Qed.

(** A loop that only appends builds the mapped list behind its start. *)
Lemma fold_left_append {A B} (f : A -> B) (l : list A) (acc : list B) :
  fold_left (fun px a => px ++ [f a]) l acc = acc ++ map f l.
Proof.
  revert acc. induction l as [|a l IH]; intros acc; simpl.
  - now rewrite app_nil_r.
  - rewrite IH, <- app_assoc. reflexivity.
Qed.

Lemma map_const_seq {A} (c : A) (l : list nat) :
  map (fun _ => c) l = repeat c (length l).
Proof. induction l; simpl; congruence. Qed.

(** [l[i]] for an index in range. *)
Lemma index_nth_error {A} (l : list A) (i : Z) (a : A) :
  0 <= i -> nth_error l (Z.to_nat i) = Some a -> Py.index l i = Ok a.
Proof.
  intros Hi H. unfold Py.index.
  destruct (Z.ltb_spec i 0); [lia|].
  destruct (Z.ltb_spec i 0); [lia|]. now rewrite H.
Qed.

(** ** The palette *)

Section Palette.
Variable self : ECBImageProcessor.

Lemma palette_shape :
  generate_color_palette self =
  white :: map (palette_color)
             (map (fun k => 1 + Z.of_nat k)
                  (seq 0 (Z.to_nat (max_colors self - 2)))) ++ [black].
Proof.
  unfold generate_color_palette.
  rewrite fold_left_append, range_list_step1.
  replace (max_colors self - 1 - 1) with (max_colors self - 2) by lia.
  reflexivity.
Qed.

Lemma palette_length :
  Py.len (generate_color_palette self) = Z.max 2 (max_colors self).
Proof.
  rewrite palette_shape. unfold Py.len. simpl.
  rewrite length_app, !length_map, length_seq. simpl. lia.
Qed.

Lemma palette_first : Py.index (generate_color_palette self) 0 = Ok white.
Proof. rewrite palette_shape. reflexivity. Qed.

Lemma palette_last :
  Py.index (generate_color_palette self)
           (Py.len (generate_color_palette self) - 1) = Ok black.
Proof.
  apply index_nth_error.
  - rewrite palette_length. lia.
  - rewrite palette_length, palette_shape.
    rewrite app_comm_cons, nth_error_app2;
      simpl; rewrite !length_map, length_seq; [|lia].
    match goal with |- nth_error _ ?n = _ => replace n with 0%nat by lia end.
    reflexivity.
Qed.

Lemma palette_middle (i : Z) :
  1 <= i <= max_colors self - 2 ->
  Py.index (generate_color_palette self) i = Ok (palette_color i).
Proof.
  intros Hi. apply index_nth_error; [lia|].
  rewrite palette_shape.
  replace (Z.to_nat i) with (S (Z.to_nat (i - 1))) by lia.
  cbn [nth_error].
  rewrite nth_error_app1 by (rewrite !length_map, length_seq; lia).
  rewrite map_map, nth_error_map, nth_error_seq.
  destruct (Nat.ltb_spec (Z.to_nat (i - 1)) (Z.to_nat (max_colors self - 2)))
    as [_|H]; [|lia].
  cbn [option_map]. do 2 f_equal. lia.
Qed.
End Palette.

(** C2 (as amended).  For [max_colors >= 2] the palette has exactly
    [max_colors] entries, entry 0 is pure white, entry [max_colors - 1] is
    pure black, and every entry [i] with [1 <= i <= max_colors - 2] is
    [((i * 50) mod 255, (i * 80) mod 255, (i * 110) mod 255)]: the modulus
    of the code is 255. *)
Theorem C2_palette_entries (self : ECBImageProcessor) :
  2 <= max_colors self ->
  let palette := generate_color_palette self in
  Py.len palette = max_colors self /\
  Py.index palette 0 = Ok white /\
  Py.index palette (max_colors self - 1) = Ok black /\
  forall i, 1 <= i <= max_colors self - 2 ->
            Py.index palette i =
            Ok ((i * 50) mod 255, (i * 80) mod 255, (i * 110) mod 255).
Proof.
  intros Hmc palette. subst palette.
  assert (Hlen : Py.len (generate_color_palette self) = max_colors self)
    by (rewrite palette_length; lia).
  repeat split.
  - exact Hlen.
  - apply palette_first.
  - pose proof (palette_last self) as Hl. now rewrite Hlen in Hl.
  - intros i Hi. now apply palette_middle.
Qed.

Lemma C2_palette_entries_witness :
  let palette := generate_color_palette (default_processor "ct.bin") in
  Py.len palette = 254 /\
  Py.index palette 0 = Ok white /\
  Py.index palette 253 = Ok black /\
  forall i, 1 <= i <= 252 ->
            Py.index palette i =
            Ok ((i * 50) mod 255, (i * 80) mod 255, (i * 110) mod 255).
Proof.
  apply (C2_palette_entries (default_processor "ct.bin")). simpl. lia.
Defined.

(** C2 as the specification words it, with the modulus 256, fails at entry 6
    of the default palette: the code stores (45, 225, 150), the formula with
    256 gives (44, 224, 148).  Below the documented minimum the count fails
    too: [max_colors = 1] still gives the two entries white and black. *)
Lemma C2_modulus_256_counterexample :
  (1 <= 6 <= max_colors (default_processor "ct.bin") - 2 /\
   Py.index (generate_color_palette (default_processor "ct.bin")) 6 =
     Ok (45, 225, 150) /\
   Py.index (generate_color_palette (default_processor "ct.bin")) 6 <>
     Ok ((6 * 50) mod 256, (6 * 80) mod 256, (6 * 110) mod 256)) /\
  generate_color_palette (init "ct.bin" 16 1 true 16) = [white; black].
Proof.
  split; [|reflexivity].
  split; [simpl; lia|]. split; [reflexivity|].
  vm_compute. discriminate.
Qed.

(** ** Chunking *)

Lemma slice_in_range {A} (l : list A) (a b : Z) :
  0 <= a -> a <= b -> b <= Py.len l ->
  Py.slice l a b = firstn (Z.to_nat (b - a)) (skipn (Z.to_nat a) l).
Proof.
  intros Ha Hab Hb. unfold Py.slice, Py.bound.
  destruct (Z.ltb_spec a 0); [lia|]. destruct (Z.ltb_spec b 0); [lia|].
  replace (Z.to_nat (Z.min (Py.len l) (Z.max 0 a))) with (Z.to_nat a) by lia.
  replace (Z.to_nat (Z.min (Py.len l) (Z.max 0 b))) with (Z.to_nat b) by lia.
  f_equal. lia.
Qed.

(** A chunk that lies inside a prefix is a chunk of the whole list. *)
Lemma chunk_of_prefix {A} (l : list A) (n a b : nat) :
  (a + b <= n)%nat ->
  firstn b (skipn a (firstn n l)) = firstn b (skipn a l).
Proof.
  intros H. rewrite skipn_firstn_comm, firstn_firstn.
  f_equal. lia.
Qed.

Lemma concat_chunks {A} (b q : nat) (l : list A) :
  length l = (q * b)%nat ->
  concat (map (fun k => firstn b (skipn (k * b) l)) (seq 0 q)) = l.
Proof.
  revert l. induction q as [|q IH]; intros l Hl.
  - destruct l; [reflexivity|discriminate].
  - cbn [seq map concat]. rewrite <- seq_shift, map_map.
    cbn [Nat.mul skipn].
    transitivity (firstn b l ++ skipn b l); [|apply firstn_skipn].
    f_equal.
    rewrite <- (IH (skipn b l)) by (rewrite length_skipn; lia).
    f_equal. apply map_ext. intros k.
    rewrite skipn_skipn. do 2 f_equal. lia.
Qed.

Section Chunking.
Variable self : ECBImageProcessor.
Let B := block_size self.

Lemma read_image_bytes_ok (fs : filesystem) (data : bytes) :
  fs (image_path self) = Some data -> B <> 0 ->
  read_image_bytes self fs =
  (Ok (Py.slice data 0 (Py.len data - Py.len data mod B)),
   [EvOpen (image_path self)]).
Proof.
  intros Hfs HB. unfold read_image_bytes, open_read, bind, lift, Py.mod_.
  rewrite Hfs. fold B. destruct (Z.eqb_spec B 0); [contradiction|].
  reflexivity.
Qed.

Lemma truncate_firstn (data : bytes) :
  0 < B ->
  Py.slice data 0 (Py.len data - Py.len data mod B) =
  firstn (Z.to_nat (Py.len data - Py.len data mod B)) data.
Proof.
  intros HB. pose proof (len_nonneg data) as HL.
  pose proof (Z.mod_pos_bound (Py.len data) B HB) as Hm.
  pose proof (Z.mod_le (Py.len data) B HL HB) as Hle.
  rewrite slice_in_range by lia.
  rewrite Z.sub_0_r. reflexivity.
Qed.

Lemma range_len_chunks (q : Z) :
  0 < B -> 0 <= q -> Py.range_len 0 (B * q) B = q.
Proof.
  intros HB Hq. unfold Py.range_len.
  destruct (Z.ltb_spec 0 B); [|lia]. cbn [andb].
  destruct (Z.ltb_spec 0 (B * q)) as [Hpos|Hz].
  - replace (B * q - 1 - 0) with ((q - 1) * B + (B - 1)) by lia.
    rewrite Z.div_add_l by lia. rewrite Z.div_small by lia. lia.
  - destruct (Z.ltb_spec B 0); [lia|]. cbn [andb]. nia.
Qed.

(** The blocks of a buffer whose length is a multiple of the block
    size. *)
Lemma break_into_blocks_chunks (img_data : bytes) (q : nat) :
  0 < B -> Py.len img_data = B * Z.of_nat q ->
  break_into_blocks self img_data =
  Ok (map (fun k => firstn (Z.to_nat B) (skipn (k * Z.to_nat B) img_data))
          (seq 0 q)).
Proof.
  intros HB Hlen. unfold break_into_blocks, Py.range. fold B.
  destruct (Z.eqb_spec B 0); [lia|]. cbn [rbind]. f_equal.
  unfold Py.range_list. rewrite Hlen, range_len_chunks by lia.
  rewrite Nat2Z.id, map_map. apply map_ext_in. intros k Hk.
  apply in_seq in Hk.
  rewrite slice_in_range by nia.
  f_equal; [f_equal; lia|]. f_equal. nia.
Qed.
End Chunking.

(** C4.  For a buffer of length [L] and a positive block size [B], reading
    and chunking produce exactly [L / B] blocks, each of length [B]; block
    [j] is the stride [data[j*B : j*B + B]], so the blocks tile the first
    [L - L mod B] bytes from offset 0 without overlap, and the last
    [L mod B] bytes are not referenced: a file of the same length that
    agrees on that prefix is read to the same truncated buffer. *)
Theorem C4_truncation_law (self : ECBImageProcessor) (fs : filesystem)
    (data : bytes) :
  fs (image_path self) = Some data ->
  0 < block_size self ->
  let L := Py.len data in
  let B := block_size self in
  exists img_data img_blocks,
    read_image_bytes self fs = (Ok img_data, [EvOpen (image_path self)]) /\
    break_into_blocks self img_data = Ok img_blocks /\
    Py.len img_blocks = L / B /\
    Forall (fun blk => Py.len blk = B) img_blocks /\
    (forall j, 0 <= j < L / B ->
               Py.index img_blocks j = Ok (Py.slice data (j * B) (j * B + B))) /\
    concat img_blocks = firstn (Z.to_nat (L - L mod B)) data /\
    (forall (fs' : filesystem) data',
        fs' (image_path self) = Some data' ->
        Py.len data' = L ->
        firstn (Z.to_nat (L - L mod B)) data' =
        firstn (Z.to_nat (L - L mod B)) data ->
        read_image_bytes self fs' = read_image_bytes self fs).
Proof.
  intros Hfs HB L B.
  pose proof (len_nonneg data) as HL. fold L in HL.
  pose proof (Z.mod_pos_bound L B HB) as Hm.
  pose proof (Z.div_mod L B ltac:(lia)) as Hdm.
  assert (Hq : 0 <= L / B) by (apply Z.div_pos; lia).
  assert (HLeq : L = Z.of_nat (length data)) by reflexivity.
  set (q := Z.to_nat (L / B)).
  assert (Hqeq : Z.of_nat q = L / B) by (unfold q; lia).
  set (img_data := firstn (Z.to_nat (L - L mod B)) data).
  assert (Hread : read_image_bytes self fs =
                  (Ok img_data, [EvOpen (image_path self)])).
  { rewrite (read_image_bytes_ok self fs data Hfs) by (fold B; lia).
    now rewrite truncate_firstn. }
  assert (Hlen : Py.len img_data = B * Z.of_nat q).
  { unfold img_data, Py.len. rewrite length_firstn. lia. }
  assert (Hlen' : length img_data = (q * Z.to_nat B)%nat).
  { unfold Py.len in Hlen. nia. }
  pose proof (break_into_blocks_chunks self img_data q HB Hlen) as Hblocks.
  fold B in Hblocks.
  eexists img_data, _. split; [exact Hread|]. split; [exact Hblocks|].
  split; [|split; [|split; [|split]]].
  - unfold Py.len. rewrite length_map, length_seq. lia.
  - apply Forall_forall. intros blk Hin.
    apply in_map_iff in Hin. destruct Hin as [k [<- Hk]].
    apply in_seq in Hk. unfold Py.len.
    rewrite length_firstn, length_skipn, Hlen'. nia.
  - intros j Hj. apply index_nth_error; [lia|].
    rewrite nth_error_map, nth_error_seq.
    destruct (Nat.ltb_spec (Z.to_nat j) q) as [Hjq|]; [|lia].
    cbn [option_map Nat.add]. f_equal.
    unfold img_data. rewrite chunk_of_prefix by nia.
    rewrite slice_in_range by (fold L; nia).
    f_equal; [lia|]. f_equal. nia.
  - apply (concat_chunks (Z.to_nat B) q img_data Hlen').
  - intros fs' data' Hfs' HL' Hpre.
    rewrite Hread.
    rewrite (read_image_bytes_ok self fs' data' Hfs') by (fold B; lia).
    rewrite truncate_firstn by exact HB. fold B. rewrite HL'.
    now rewrite Hpre.
Qed.

Lemma C4_truncation_law_witness :
  exists img_data img_blocks,
    read_image_bytes (default_processor "ct.bin") (one_file (zeros 20)) =
      (Ok img_data, [EvOpen "ct.bin"%string]) /\
    break_into_blocks (default_processor "ct.bin") img_data = Ok img_blocks /\
    Py.len img_blocks = 1.
Proof.
  destruct (C4_truncation_law (default_processor "ct.bin")
              (one_file (zeros 20)) (zeros 20) eq_refl ltac:(simpl; lia))
    as [d [bl [H1 [H2 [H3 _]]]]].
  exists d, bl. repeat split; assumption.
Defined.

(** ** Expansion of blocks into pixels *)

Lemma nth_error_flat_map_repeat {A C} (f : A -> C) (r : nat) (l : list A)
    (j t : nat) :
  (t < r)%nat ->
  nth_error (flat_map (fun a => repeat (f a) r) l) (j * r + t) =
  option_map f (nth_error l j).
Proof.
  intros Ht. revert j. induction l as [|a l IH]; intros j.
  - destruct j; cbn [flat_map]; now rewrite ?nth_error_nil.
  - cbn [flat_map]. destruct j as [|j].
    + cbn [Nat.mul Nat.add nth_error option_map].
      rewrite nth_error_app1 by now rewrite repeat_length.
      now rewrite nth_error_repeat.
    + rewrite nth_error_app2 by (rewrite repeat_length; lia).
      rewrite repeat_length.
      replace (S j * r + t - r)%nat with (j * r + t)%nat by lia.
      apply IH.
Qed.

Lemma length_flat_map_repeat {A C} (f : A -> C) (r : nat) (l : list A) :
  length (flat_map (fun a => repeat (f a) r) l) = (length l * r)%nat.
Proof.
  induction l as [|a l IH]; [reflexivity|].
  cbn [flat_map length]. rewrite length_app, repeat_length, IH. lia.
Qed.

Section Expansion.
Variable self : ECBImageProcessor.
Variable block_color_map : Dict.t (K:=block) (V:=color).

(** The colour [map_blocks_to_colors] looks up for a block. *)
Let color_of (blk : block) : color :=
  Dict.get_default block_eqb block_color_map blk black.

(** The number of pixels a block contributes: [range(n)] is empty for a
    negative [n]. *)
Let run_length : nat :=
  Z.to_nat (block_size self / pixels_per_block self).

Lemma map_blocks_to_colors_from (img_blocks : list block)
    (acc : list color) :
  pixels_per_block self <> 0 ->
  for_in img_blocks
    (fun pixel_colors blk =>
       let c := Dict.get_default block_eqb block_color_map blk black in
       n <-? Py.floordiv (block_size self) (pixels_per_block self) ;;
       Ok (fold_left (fun px _ => px ++ [c]) (Py.range_list 0 n 1)
                     pixel_colors))
    acc =
  Ok (acc ++ flat_map (fun blk => repeat (color_of blk) run_length)
                      img_blocks).
Proof.
  intros Hp. revert acc. induction img_blocks as [|blk l IH]; intros acc.
  - cbn [for_in flat_map]. now rewrite app_nil_r.
  - cbn [for_in flat_map]. unfold Py.floordiv at 1.
    destruct (Z.eqb_spec (pixels_per_block self) 0); [contradiction|].
    cbn [rbind]. rewrite IH, fold_left_append, range_list_step1.
    rewrite map_map, map_const_seq, length_seq, Z.sub_0_r.
    now rewrite <- app_assoc.
Qed.

Lemma map_blocks_to_colors_ok (img_blocks : list block) :
  pixels_per_block self <> 0 ->
  map_blocks_to_colors self img_blocks block_color_map =
  Ok (flat_map (fun blk => repeat (color_of blk) run_length) img_blocks).
Proof.
  intros Hp. unfold map_blocks_to_colors.
  now rewrite map_blocks_to_colors_from.
Qed.

Lemma map_blocks_to_colors_nil :
  map_blocks_to_colors self [] block_color_map = Ok [].
Proof. reflexivity. Qed.

(** The length of the pixel sequence, whatever the sign of the quotient
    and whether or not the division is exact. *)
Lemma map_blocks_to_colors_length (img_blocks : list block) :
  pixels_per_block self <> 0 ->
  exists pixel_colors,
    map_blocks_to_colors self img_blocks block_color_map = Ok pixel_colors /\
    Py.len pixel_colors =
    Py.len img_blocks *
    Z.max 0 (block_size self / pixels_per_block self).
Proof.
  intros Hp. eexists. split; [now apply map_blocks_to_colors_ok|].
  unfold Py.len. rewrite length_flat_map_repeat. unfold run_length. lia.
Qed.

Lemma map_blocks_to_colors_index (img_blocks : list block) (j t : Z)
    (blk : block) :
  pixels_per_block self <> 0 ->
  0 <= j -> 0 <= t < block_size self / pixels_per_block self ->
  Py.index img_blocks j = Ok blk ->
  exists pixel_colors,
    map_blocks_to_colors self img_blocks block_color_map = Ok pixel_colors /\
    Py.index pixel_colors
             (j * (block_size self / pixels_per_block self) + t) =
    Ok (color_of blk).
Proof.
  intros Hp Hj Ht Hb. eexists. split; [now apply map_blocks_to_colors_ok|].
  apply index_nth_error; [nia|].
  replace (Z.to_nat (j * (block_size self / pixels_per_block self) + t))
    with (Z.to_nat j * run_length + Z.to_nat t)%nat
    by (unfold run_length; nia).
  rewrite nth_error_flat_map_repeat by (unfold run_length; lia).
  unfold Py.index in Hb. destruct (Z.ltb_spec j 0); [lia|].
  destruct (Z.ltb_spec j 0); [lia|].
  destruct (nth_error img_blocks (Z.to_nat j)); [|discriminate].
  now inversion Hb.
Qed.
End Expansion.

(** C7.  The pixel sequence follows the chunk order of the blocks: with
    [r = block_size // pixels_per_block] pixels per block, the pixels at
    positions [j * r .. j * r + r - 1] all carry the colour that the colour
    map gives the [j]-th input block (black for a block the map does not
    hold), wherever that block stands in the frequency ranking. *)
Theorem C7_order_preservation (self : ECBImageProcessor)
    (img_blocks : list block) (block_color_map : Dict.t (K:=block) (V:=color)) :
  pixels_per_block self <> 0 ->
  exists pixel_colors,
    map_blocks_to_colors self img_blocks block_color_map = Ok pixel_colors /\
    forall j t blk,
      0 <= j ->
      0 <= t < block_size self / pixels_per_block self ->
      Py.index img_blocks j = Ok blk ->
      Py.index pixel_colors
               (j * (block_size self / pixels_per_block self) + t) =
      Ok (Dict.get_default block_eqb block_color_map blk black).
Proof.
  intros Hp. eexists. split; [now apply map_blocks_to_colors_ok|].
  intros j t blk Hj Ht Hb.
  destruct (map_blocks_to_colors_index self block_color_map img_blocks
              j t blk Hp Hj Ht Hb) as [px [Hpx Hidx]].
  rewrite map_blocks_to_colors_ok in Hpx by exact Hp.
  inversion Hpx; subst px. exact Hidx.
Qed.

(** ** Rendering *)

Lemma bind_ok {A B} (a : A) (t : list event) (f : A -> M B) :
  bind (Ok a, t) f = (fst (f a), t ++ snd (f a)).
Proof. unfold bind. now destruct (f a). Qed.

(** A loop whose body draws one point per element leaves exactly those
    points in the trace. *)
Lemma for_each_emit {A} (l : list A) (body : A -> M unit) (f : A -> event) :
  (forall x, In x l -> body x = emit (f x)) ->
  for_each l body = (Ok tt, map f l).
Proof.
  induction l as [|x l IH]; intros H; [reflexivity|].
  cbn [for_each map]. rewrite (H x (or_introl eq_refl)).
  unfold emit. rewrite bind_ok, IH by (intros y Hy; apply H; now right).
  reflexivity.
Qed.

Lemma enumerate_length {A} (l : list A) :
  length (Py.enumerate l) = length l.
Proof.
  unfold Py.enumerate.
  rewrite length_combine, length_map, length_seq. lia.
Qed.

Lemma enumerate_nth_error {A} (l : list A) (k : nat) :
  nth_error (Py.enumerate l) k =
  option_map (fun a => (Z.of_nat k, a)) (nth_error l k).
Proof.
  unfold Py.enumerate.
  destruct (nth_error l k) as [a|] eqn:Hk.
  - assert (Hlt : (k < length l)%nat)
      by (apply nth_error_Some; congruence).
    cbn [option_map].
    rewrite (nth_error_nth' _ (0, a))
      by (rewrite length_combine, length_map, length_seq; lia).
    rewrite combine_nth by now rewrite length_map, length_seq.
    f_equal. f_equal.
    + rewrite (nth_indep _ 0 (Z.of_nat 0))
        by (rewrite length_map, length_seq; lia).
      rewrite map_nth, seq_nth by lia. reflexivity.
    + now apply nth_error_nth.
  - apply nth_error_None in Hk. apply nth_error_None.
    rewrite length_combine, length_map, length_seq. lia.
Qed.

Lemma enumerate_In {A} (l : list A) (k : Z) (a : A) :
  In (k, a) (Py.enumerate l) ->
  0 <= k < Py.len l /\ nth_error l (Z.to_nat k) = Some a.
Proof.
  intros Hin. apply In_nth_error in Hin. destruct Hin as [n Hn].
  rewrite enumerate_nth_error in Hn.
  destruct (nth_error l n) as [a'|] eqn:Hl; [|discriminate].
  cbn [option_map] in Hn. inversion Hn; subst.
  assert ((n < length l)%nat) by (apply nth_error_Some; congruence).
  unfold Py.len. rewrite Nat2Z.id. split; [lia|assumption].
Qed.

Section Rendering.
Variable self : ECBImageProcessor.

(** Where [create_image] puts the pixel of linear index [idx] in an image
    of the given width and height. *)
Let placement (img_width img_height : Z) (p : Z * color) : event :=
  EvPoint (fst p mod img_width)
          (if flip self then img_height - fst p / img_width - 1
           else fst p / img_width)
          (snd p).

(** The height the code computes is the ceiling of [n / w]. *)
Lemma height_is_ceiling (n w : Z) :
  0 < w -> 0 <= n ->
  let h := if negb (n mod w =? 0) then n / w + 1 else n / w in
  (h - 1) * w < n + w /\ (0 < n -> (h - 1) * w < n) /\ n <= h * w.
Proof.
  intros Hw Hn h. subst h.
  pose proof (Z.div_mod n w ltac:(lia)) as Hdm.
  pose proof (Z.mod_pos_bound n w Hw) as Hm.
  destruct (Z.eqb_spec (n mod w) 0); cbn [negb]; nia.
Qed.

Lemma create_image_nonempty (fs : filesystem) (pixel_colors : list color) :
  pixel_colors <> [] ->
  let n := Py.len pixel_colors in
  let w := Z.sqrt n in
  let h := if negb (n mod w =? 0) then n / w + 1 else n / w in
  create_image self fs pixel_colors =
  match save_error fs (output_image_path self) with
  | None =>
      (Ok tt,
       EvNew w h ::
       map (placement w h) (Py.enumerate pixel_colors) ++
       [EvSave (output_image_path self);
        EvPrint ("Image saved to " ++ output_image_path self)%string])
  | Some e =>
      (Raise e,
       EvNew w h ::
       map (placement w h) (Py.enumerate pixel_colors) ++
       [EvSave (output_image_path self)])
  end.
Proof.
  intros Hne n w h.
  assert (Hn : 0 < n).
  { unfold n, Py.len. destruct pixel_colors; [contradiction|].
    cbn [length]. lia. }
  assert (Hw : 0 < w) by (apply Z.sqrt_pos; exact Hn).
  destruct (height_is_ceiling n w Hw ltac:(lia)) as [_ [_ Hceil]].
  fold h in Hceil.
  unfold create_image, Py.isqrt, Py.floordiv, Py.mod_, lift.
  fold n. fold w. destruct (Z.eqb_spec w 0); [lia|].
  rewrite !bind_ok. cbn [fst snd]. fold h.
  unfold emit at 1. rewrite bind_ok.
  rewrite (for_each_emit _ _ (placement w h)).
  - unfold save_image.
    destruct (save_error fs (output_image_path self)); reflexivity.
  - intros [idx c] Hin. apply enumerate_In in Hin.
    destruct Hin as [Hidx _]. fold n in Hidx.
    unfold placement. cbn [fst snd].
    assert (Hq : 0 <= idx / w < h).
    { split; [apply Z.div_pos; lia|].
      apply Z.div_lt_upper_bound; nia. }
    destruct (flip self).
    + destruct (Z.ltb_spec (h - idx / w - 1) h); [reflexivity|lia].
    + destruct (Z.ltb_spec (idx / w) h); [reflexivity|lia].
Qed.

Lemma create_image_empty (fs : filesystem) :
  create_image self fs [] = (Raise ZeroDivisionError, []).
Proof. reflexivity. Qed.
End Rendering.

Lemma index_inv {A} (l : list A) (i : Z) (a : A) :
  0 <= i -> Py.index l i = Ok a -> nth_error l (Z.to_nat i) = Some a.
Proof.
  intros Hi H. unfold Py.index in H.
  destruct (Z.ltb_spec i 0); [lia|]. destruct (Z.ltb_spec i 0); [lia|].
  destruct (nth_error l (Z.to_nat i)); [|discriminate]. now inversion H.
Qed.

(** C9.  For a non-empty pixel sequence of [n] pixels the image is created
    with width [floor(sqrt(n))] and height [ceil(n / width)], every pixel is
    drawn, and the pixel of linear index [k] is drawn at
    [(k mod width, k div width)] without [flip] and at
    [(k mod width, height - k div width - 1)] with it.  The image is then
    saved, and the run ends with the message or, if saving raises, with
    that exception.  ([int(math.sqrt(n))] is taken as the integer square
    root.) *)
Theorem C9_raster_layout (self : ECBImageProcessor) (fs : filesystem)
    (pixel_colors : list color) :
  pixel_colors <> [] ->
  let n := Py.len pixel_colors in
  exists img_width img_height points,
    create_image self fs pixel_colors =
    match save_error fs (output_image_path self) with
    | None =>
        (Ok tt,
         EvNew img_width img_height ::
         points ++
         [EvSave (output_image_path self);
          EvPrint ("Image saved to " ++ output_image_path self)%string])
    | Some e =>
        (Raise e,
         EvNew img_width img_height ::
         points ++ [EvSave (output_image_path self)])
    end /\
    0 < img_width /\
    img_width * img_width <= n < (img_width + 1) * (img_width + 1) /\
    (img_height - 1) * img_width < n <= img_height * img_width /\
    Py.len points = n /\
    forall k c,
      0 <= k -> Py.index pixel_colors k = Ok c ->
      Py.index points k =
      Ok (EvPoint (k mod img_width)
                  (if flip self then img_height - k / img_width - 1
                   else k / img_width)
                  c).
Proof.
  intros Hne n.
  assert (Hn : 0 < n).
  { unfold n, Py.len. destruct pixel_colors; [contradiction|].
    cbn [length]. lia. }
  pose proof (create_image_nonempty self fs pixel_colors Hne) as Hc.
  cbv zeta in Hc. fold n in Hc.
  set (w := Z.sqrt n) in *.
  set (h := if negb (n mod w =? 0) then n / w + 1 else n / w) in *.
  assert (Hw : 0 < w) by (apply Z.sqrt_pos; exact Hn).
  eexists w, h, _. split; [exact Hc|].
  split; [exact Hw|]. split.
  { pose proof (Z.sqrt_spec n ltac:(lia)) as Hs. fold w in Hs.
    unfold Z.succ in Hs. exact Hs. }
  split.
  { destruct (height_is_ceiling n w Hw ltac:(lia)) as [_ [H1 H2]].
    fold h in H1, H2. split; [apply H1; exact Hn|exact H2]. }
  split.
  { unfold Py.len. rewrite length_map, enumerate_length. reflexivity. }
  intros k c Hk Hidx. apply index_inv in Hidx; [|exact Hk].
  apply index_nth_error; [exact Hk|].
  rewrite nth_error_map, enumerate_nth_error, Hidx.
  cbn [option_map fst snd]. rewrite Z2Nat.id by exact Hk. reflexivity.
Qed.

Lemma C9_raster_layout_witness :
  exists img_width img_height points,
    create_image (init "ct.bin" 16 254 true 16) (one_file [])
                 [white; black; white] =
    (Ok tt,
     EvNew img_width img_height ::
     points ++
     [EvSave "ct.bin_image.png"%string;
      EvPrint "Image saved to ct.bin_image.png"%string]) /\
    img_width = 1 /\ img_height = 3 /\
    Py.index points 1 = Ok (EvPoint 0 1 black).
Proof.
  destruct (C9_raster_layout (init "ct.bin" 16 254 true 16) (one_file [])
              [white; black; white] ltac:(discriminate))
    as [w [h [pts [Hc [Hw [Hs [Hh [Hl Hp]]]]]]]].
  exists w, h, pts.
  assert (w = 1) by (change (Py.len [white; black; white]) with 3 in Hs; nia).
  assert (h = 3)
    by (change (Py.len [white; black; white]) with 3 in Hh; nia).
  subst w h. repeat split; try assumption.
  apply (Hp 1 black); [lia|reflexivity].
Defined.

Lemma rendered_pixels_points {A} (f : A -> event) (l : list A)
    (hd tl : list event) :
  (forall a, is_point (f a) = true) ->
  filter is_point hd = [] -> filter is_point tl = [] ->
  rendered_pixels (hd ++ map f l ++ tl) = Py.len l.
Proof.
  intros Hf Hhd Htl. unfold rendered_pixels.
  rewrite !filter_app, Hhd, Htl, app_nil_r. cbn [app].
  rewrite forallb_filter_id
    by (apply forallb_forall; intros e He; apply in_map_iff in He;
        destruct He as [a [<- _]]; apply Hf).
  unfold Py.len. now rewrite length_map.
Qed.

(** Every pixel of the sequence is drawn, whether or not the save then
    succeeds, so the number of points equals the length of the sequence
    (none at all for the empty one). *)
Lemma create_image_rendered (self : ECBImageProcessor) (fs : filesystem)
    (pixel_colors : list color) :
  rendered_pixels (snd (create_image self fs pixel_colors)) =
  Py.len pixel_colors.
Proof.
  destruct pixel_colors as [|c l] eqn:E; [reflexivity|].
  rewrite create_image_nonempty by discriminate.
  assert (Hlen : Py.len (Py.enumerate (c :: l)) = Py.len (c :: l))
    by (unfold Py.len; now rewrite enumerate_length).
  rewrite <- Hlen.
  destruct (save_error fs (output_image_path self)); cbn [snd];
    apply (rendered_pixels_points _ _ [EvNew _ _]);
    (intros p; reflexivity) || reflexivity.
Qed.

(** ** Dictionaries *)

Lemma block_eqb_eq (a b : block) : block_eqb a b = true <-> a = b.
Proof.
  revert b. induction a as [|x a IH]; intros [|y b]; cbn [block_eqb];
    try (split; [discriminate|discriminate]); [tauto|].
  rewrite andb_true_iff, IH. split.
  - intros [Hx ->]. apply Byte.byte_dec_bl in Hx. now subst.
  - intros H. inversion H; subst. split; [now apply Byte.byte_dec_lb|easy].
Qed.

Lemma block_eqb_refl (a : block) : block_eqb a a = true.
Proof. now apply block_eqb_eq. Qed.

Lemma block_eqb_neq (a b : block) : block_eqb a b = false <-> a <> b.
Proof.
  rewrite <- block_eqb_eq. destruct (block_eqb a b); split; congruence.
Qed.

Section DictFacts.
Context {V : Type}.
Implicit Types (d : Dict.t (K:=block) (V:=V)) (k : block) (v : V).

Local Abbreviation get := (Dict.get block_eqb).
Local Abbreviation set := (Dict.set block_eqb).
Local Abbreviation keys := (@Dict.keys block V).

Lemma get_None d k : get d k = None <-> ~ In k (keys d).
Proof.
  induction d as [|[k' v'] d IH]; cbn [Dict.get Dict.keys map fst In].
  - tauto.
  - destruct (block_eqb k k') eqn:E.
    + apply block_eqb_eq in E. subst. split; [discriminate|tauto].
    + apply block_eqb_neq in E. unfold Dict.keys in IH. rewrite IH.
      split; [intros H [?|?]; congruence|tauto].
Qed.

Lemma get_In d k v : NoDup (keys d) -> In (k, v) d -> get d k = Some v.
Proof.
  induction d as [|[k' v'] d IH]; intros Hnd Hin; [contradiction|].
  cbn [Dict.keys map fst] in Hnd. inversion Hnd as [|? ? Hnotin Hnd']; subst.
  cbn [Dict.get]. destruct Hin as [Heq|Hin].
  - inversion Heq; subst. now rewrite block_eqb_refl.
  - destruct (block_eqb k k') eqn:E.
    + apply block_eqb_eq in E. subst. exfalso. apply Hnotin.
      apply in_map_iff. now exists (k', v).
    + now apply IH.
Qed.

Lemma get_Some_In d k v : get d k = Some v -> In (k, v) d.
Proof.
  induction d as [|[k' v'] d IH]; cbn [Dict.get]; [discriminate|].
  destruct (block_eqb k k') eqn:E.
  - apply block_eqb_eq in E. subst. intros H. inversion H. now left.
  - intros H. right. now apply IH.
Qed.

(** Storing under a new key appends the item. *)
Lemma set_fresh d k v : ~ In k (keys d) -> set d k v = d ++ [(k, v)].
Proof.
  induction d as [|[k' v'] d IH]; intros Hk; [reflexivity|].
  cbn [Dict.keys map fst In] in Hk. cbn [Dict.set].
  destruct (block_eqb k k') eqn:E.
  - apply block_eqb_eq in E. subst. tauto.
  - cbn [app]. f_equal. apply IH. unfold Dict.keys. tauto.
Qed.

(** Storing under a key already present keeps the keys and their order. *)
Lemma keys_set_present d k v : In k (keys d) -> keys (set d k v) = keys d.
Proof.
  induction d as [|[k' v'] d IH]; intros Hk; [contradiction|].
  cbn [Dict.keys map fst In] in Hk.
  cbn [Dict.set]. destruct (block_eqb k k') eqn:E; [reflexivity|].
  cbn [Dict.keys map fst]. f_equal. apply IH.
  apply block_eqb_neq in E. destruct Hk as [Hk|Hk]; [congruence|exact Hk].
Qed.

Lemma get_set_same d k v : get (set d k v) k = Some v.
Proof.
  induction d as [|[k' v'] d IH]; cbn [Dict.set Dict.get].
  - now rewrite block_eqb_refl.
  - destruct (block_eqb k k') eqn:E; cbn [Dict.get]; now rewrite E.
Qed.

Lemma get_set_other d k k' v : k' <> k -> get (set d k v) k' = get d k'.
Proof.
  intros Hne. induction d as [|[k0 v0] d IH]; cbn [Dict.set Dict.get].
  - apply block_eqb_neq in Hne. now rewrite Hne.
  - destruct (block_eqb k k0) eqn:E; cbn [Dict.get].
    + apply block_eqb_eq in E. subst k0.
      apply block_eqb_neq in Hne. now rewrite Hne.
    + now rewrite IH.
Qed.
End DictFacts.

(** ** Counting *)

Lemma first_index_In (blk : block) (l l' : list block) :
  In blk l -> first_index blk (l ++ l') = first_index blk l.
Proof.
  induction l as [|x l IH]; intros Hin; [contradiction|].
  cbn [app first_index]. destruct (block_eqb blk x) eqn:E; [reflexivity|].
  f_equal. apply IH. apply block_eqb_neq in E.
  destruct Hin; [congruence|assumption].
Qed.

Lemma first_index_lt (blk : block) (l : list block) :
  In blk l -> (first_index blk l < length l)%nat.
Proof.
  induction l as [|x l IH]; intros Hin; [contradiction|].
  cbn [first_index length]. destruct (block_eqb blk x) eqn:E; [lia|].
  apply block_eqb_neq in E. destruct Hin; [congruence|].
  apply IH in H. lia.
Qed.

Lemma first_index_new (blk : block) (l : list block) :
  ~ In blk l -> first_index blk (l ++ [blk]) = length l.
Proof.
  induction l as [|x l IH]; intros Hnin; cbn [app first_index length].
  - now rewrite block_eqb_refl.
  - destruct (block_eqb blk x) eqn:E.
    + apply block_eqb_eq in E. subst. exfalso. apply Hnin. now left.
    + f_equal. apply IH. intros H. apply Hnin. now right.
Qed.

Lemma occurrences_app (blk : block) (l l' : list block) :
  occurrences blk (l ++ l') = occurrences blk l + occurrences blk l'.
Proof. unfold occurrences. now rewrite filter_app, len_app. Qed.

Lemma occurrences_pos (blk : block) (l : list block) :
  In blk l <-> 0 < occurrences blk l.
Proof.
  unfold occurrences, Py.len. split.
  - intros Hin.
    assert (Hf : In blk (filter (block_eqb blk) l))
      by (apply filter_In; split; [assumption|apply block_eqb_refl]).
    destruct (filter (block_eqb blk) l); [contradiction|cbn [length]; lia].
  - intros H. destruct (filter (block_eqb blk) l) as [|y f] eqn:E;
      [cbn [length] in H; lia|].
    assert (Hy : In y (filter (block_eqb blk) l)) by (rewrite E; now left).
    apply filter_In in Hy. destruct Hy as [Hy Heq].
    apply block_eqb_eq in Heq. now subst.
Qed.

Lemma Counter_snoc (l : list block) (blk : block) :
  Counter (l ++ [blk]) =
  Dict.set block_eqb (Counter l) blk
           (Dict.get_default block_eqb (Counter l) blk 0 + 1).
Proof. unfold Counter. now rewrite fold_left_app. Qed.

(** The counter holds exactly the blocks that occur, each with its number of
    occurrences. *)
Lemma Counter_get (l : list block) (blk : block) :
  Dict.get block_eqb (Counter l) blk =
  if occurrences blk l =? 0 then None else Some (occurrences blk l).
Proof.
  induction l as [|x l IH] using rev_ind; [reflexivity|].
  rewrite Counter_snoc, occurrences_app.
  unfold occurrences at 2 4. cbn [filter].
  destruct (block_eqb blk x) eqn:E.
  - apply block_eqb_eq in E. subst x. rewrite get_set_same.
    unfold Dict.get_default. rewrite IH.
    assert (0 <= occurrences blk l) by apply len_nonneg.
    change (Py.len [blk]) with 1.
    destruct (Z.eqb_spec (occurrences blk l) 0) as [Hz|Hnz];
      destruct (Z.eqb_spec (occurrences blk l + 1) 0); try lia;
      f_equal; lia.
  - apply block_eqb_neq in E. rewrite get_set_other by exact E.
    change (Py.len []) with 0. now rewrite Z.add_0_r.
Qed.

Lemma Counter_keys_In (l : list block) (blk : block) :
  In blk (Dict.keys (Counter l)) <-> In blk l.
Proof.
  rewrite (occurrences_pos blk l).
  pose proof (get_None (Counter l) blk) as Hn. rewrite Counter_get in Hn.
  assert (0 <= occurrences blk l) by apply len_nonneg.
  destruct (Z.eqb_spec (occurrences blk l) 0) as [Hz|Hnz].
  - split; [intros Hin; exfalso; exact (proj1 Hn eq_refl Hin)|lia].
  - split; [lia|]. intros _.
    destruct (in_dec block_eq_dec blk
                     (Dict.keys (Counter l))) as [Hin|Hnin]; [exact Hin|].
    apply Hn in Hnin. discriminate.
Qed.

Lemma Counter_keys_snoc (l : list block) (blk : block) :
  Dict.keys (Counter (l ++ [blk])) =
  if in_dec block_eq_dec blk l
  then Dict.keys (Counter l)
  else Dict.keys (Counter l) ++ [blk].
Proof.
  rewrite Counter_snoc.
  destruct (in_dec block_eq_dec blk l) as [Hin|Hnin].
  - apply keys_set_present. now apply Counter_keys_In.
  - rewrite set_fresh by now rewrite Counter_keys_In.
    unfold Dict.keys. now rewrite map_app.
Qed.

Lemma Counter_keys_NoDup (l : list block) : NoDup (Dict.keys (Counter l)).
Proof.
  induction l as [|x l IH] using rev_ind; [constructor|].
  rewrite Counter_keys_snoc.
  destruct (in_dec block_eq_dec x l) as [Hin|Hnin]; [exact IH|].
  apply NoDup_app; [exact IH| |].
  - constructor; [intros []|constructor].
  - intros a Ha [Heq|[]]. subst a. apply (proj1 (Counter_keys_In l x)) in Ha.
    contradiction.
Qed.

(** ** Sorting *)

Lemma StronglySorted_app {A} (R : A -> A -> Prop) (l1 l2 : list A) :
  StronglySorted R l1 -> StronglySorted R l2 ->
  (forall a b, In a l1 -> In b l2 -> R a b) ->
  StronglySorted R (l1 ++ l2).
Proof.
  intros H1 H2 H12. induction H1 as [|a l1 Hs IH Hall]; [exact H2|].
  cbn [app]. constructor.
  - apply IH. intros x y Hx Hy. apply H12; [now right|exact Hy].
  - apply Forall_app. split; [exact Hall|].
    apply Forall_forall. intros y Hy. apply H12; [now left|exact Hy].
Qed.

Lemma StronglySorted_rev {A} (R : A -> A -> Prop) (l : list A) :
  StronglySorted R l -> StronglySorted (fun a b => R b a) (rev l).
Proof.
  induction 1 as [|a l Hs IH Hall]; [constructor|].
  cbn [rev]. apply StronglySorted_app; [exact IH|repeat constructor|].
  intros x y Hx [<-|[]]. apply in_rev in Hx.
  rewrite Forall_forall in Hall. now apply Hall.
Qed.

(** Sortedness carries over to a relation that agrees on the members. *)
Lemma StronglySorted_weaken {A} (R R' : A -> A -> Prop) (l : list A) :
  (forall a b, In a l -> In b l -> R a b -> R' a b) ->
  StronglySorted R l -> StronglySorted R' l.
Proof.
  intros HR Hs. induction Hs as [|a l Hs IH Hall]; [constructor|].
  constructor.
  - apply IH. intros x y Hx Hy. apply HR; now right.
  - rewrite Forall_forall in *. intros y Hy.
    apply HR; [now left|now right|now apply Hall].
Qed.

Lemma StronglySorted_map {A B} (f : A -> B) (R : B -> B -> Prop)
    (l : list A) :
  StronglySorted R (map f l) ->
  StronglySorted (fun a b => R (f a) (f b)) l.
Proof.
  induction l as [|a l IH]; intros H; [constructor|].
  cbn [map] in H. inversion H as [|? ? Hs Hall]; subst. constructor.
  - now apply IH.
  - rewrite Forall_forall in *. intros y Hy. apply Hall. now apply in_map.
Qed.

Lemma StronglySorted_nth_error {A} (R : A -> A -> Prop) (l : list A)
    (i j : nat) (a b : A) :
  StronglySorted R l -> (i < j)%nat ->
  nth_error l i = Some a -> nth_error l j = Some b -> R a b.
Proof.
  intros Hs. revert i j. induction Hs as [|x l Hs IH Hall]; intros i j Hij Hi Hj.
  - destruct i; discriminate.
  - destruct j as [|j]; [lia|]. cbn [nth_error] in Hj.
    destruct i as [|i].
    + cbn [nth_error] in Hi. inversion Hi; subst.
      rewrite Forall_forall in Hall. apply Hall.
      eapply nth_error_In; eassumption.
    + cbn [nth_error] in Hi. apply (IH i j); [lia|assumption|assumption].
Qed.

Section SortedFacts.
Context {A : Type} (key : A -> Z).

Lemma insert_perm (x : A) (s : list A) :
  Permutation (Py.insert key x s) (x :: s).
Proof.
  induction s as [|y s IH]; cbn [Py.insert]; [reflexivity|].
  destruct (key x <=? key y); [reflexivity|].
  rewrite IH. apply perm_swap.
Qed.

Lemma sorted_asc_perm (l : list A) : Permutation (Py.sorted_asc key l) l.
Proof.
  induction l as [|x l IH]; cbn [Py.sorted_asc]; [reflexivity|].
  rewrite insert_perm. now constructor.
Qed.

Lemma sorted_perm (reverse : bool) (l : list A) :
  Permutation (Py.sorted key reverse l) l.
Proof.
  unfold Py.sorted. destruct reverse; [|apply sorted_asc_perm].
  rewrite <- Permutation_rev, sorted_asc_perm. symmetry.
  apply Permutation_rev.
Qed.

(** [Q] is the order in which the elements stand in the input.  An element
    that stands before all of [s] is inserted before the elements of equal
    key. *)
Lemma insert_stable (Q : A -> A -> Prop) (x : A) (s : list A) :
  StronglySorted (fun a b => key a < key b \/ (key a = key b /\ Q a b)) s ->
  Forall (Q x) s ->
  StronglySorted (fun a b => key a < key b \/ (key a = key b /\ Q a b))
                 (Py.insert key x s).
Proof.
  intros Hs. induction Hs as [|y s Hs IH Hall]; intros HQ.
  - cbn [Py.insert]. repeat constructor.
  - cbn [Py.insert]. inversion HQ as [|? ? HQy HQs]; subst.
    destruct (Z.leb_spec (key x) (key y)) as [Hle|Hgt].
    + constructor; [now constructor|].
      constructor.
      * destruct (Z.eq_dec (key x) (key y)); [now right|left; lia].
      * rewrite Forall_forall in *. intros z Hz.
        specialize (Hall z Hz). specialize (HQs z Hz).
        destruct (Z.eq_dec (key x) (key z)); [now right|left; lia].
    + constructor; [now apply IH|].
      rewrite Forall_forall in *. intros z Hz.
      apply (Permutation_in _ (insert_perm x s)) in Hz.
      destruct Hz as [<-|Hz]; [left; lia|now apply Hall].
Qed.

Lemma sorted_asc_stable (Q : A -> A -> Prop) (l : list A) :
  StronglySorted Q l ->
  StronglySorted (fun a b => key a < key b \/ (key a = key b /\ Q a b))
                 (Py.sorted_asc key l).
Proof.
  induction 1 as [|x l Hs IH Hall]; cbn [Py.sorted_asc]; [constructor|].
  apply insert_stable; [exact IH|].
  rewrite Forall_forall in *. intros z Hz. apply Hall.
  now apply (Permutation_in _ (sorted_asc_perm l)).
Qed.

(** [sorted(..., reverse=True)] is descending in the key and keeps the
    input order among equal keys. *)
Lemma sorted_reverse_stable (Q : A -> A -> Prop) (l : list A) :
  StronglySorted Q l ->
  StronglySorted (fun a b => key b < key a \/ (key a = key b /\ Q a b))
                 (Py.sorted key true l).
Proof.
  intros Hs. unfold Py.sorted.
  apply StronglySorted_rev in Hs.
  apply (sorted_asc_stable (fun a b => Q b a)) in Hs.
  apply StronglySorted_rev in Hs.
  revert Hs. apply StronglySorted_weaken.
  intros a b _ _ [H|[H1 H2]]; [now left|right; split; [lia|exact H2]].
Qed.
End SortedFacts.

(** ** Ranking *)

(** The counter lists the distinct blocks in the order they are first
    seen. *)
Lemma Counter_keys_first_seen (l : list block) :
  StronglySorted (fun a b => (first_index a l < first_index b l)%nat)
                 (Dict.keys (Counter l)).
Proof.
  induction l as [|x l IH] using rev_ind; [constructor|].
  assert (Hw : StronglySorted
                 (fun a b => (first_index a (l ++ [x]) <
                              first_index b (l ++ [x]))%nat)
                 (Dict.keys (Counter l))).
  { revert IH. apply StronglySorted_weaken. intros a b Ha Hb Hab.
    apply (proj1 (Counter_keys_In l a)) in Ha.
    apply (proj1 (Counter_keys_In l b)) in Hb.
    now rewrite !first_index_In. }
  rewrite Counter_keys_snoc.
  destruct (in_dec block_eq_dec x l) as [Hin|Hnin]; [exact Hw|].
  apply StronglySorted_app; [exact Hw|repeat constructor|].
  intros a b Ha [<-|[]]. apply (proj1 (Counter_keys_In l a)) in Ha.
  rewrite first_index_In, first_index_new by assumption.
  now apply first_index_lt.
Qed.

Lemma Counter_items (l : list block) (blk : block) (cnt : Z) :
  In (blk, cnt) (Dict.items (Counter l)) <->
  In blk l /\ cnt = occurrences blk l.
Proof.
  unfold Dict.items. split.
  - intros Hin.
    apply (get_In _ _ _ (Counter_keys_NoDup l)) in Hin.
    rewrite Counter_get in Hin.
    destruct (Z.eqb_spec (occurrences blk l) 0); [discriminate|].
    inversion Hin; subst. split; [|reflexivity].
    apply occurrences_pos. pose proof (len_nonneg (filter (block_eqb blk) l)).
    unfold occurrences in *. lia.
  - intros [Hin ->]. apply get_Some_In. rewrite Counter_get.
    apply occurrences_pos in Hin.
    destruct (Z.eqb_spec (occurrences blk l) 0); [lia|reflexivity].
Qed.

(** C6.  The ranking lists every distinct block once, with its number of
    occurrences, in descending order of the count; blocks of equal count
    stand in the order in which they are first seen in the input.  The
    ranking is a function of the block sequence, so a fixed input ordering
    has one ranking. *)
Theorem C6_ranking_order (img_blocks : list block) :
  let ranking := sorted_blocks (count_block_frequencies img_blocks) in
  NoDup (map fst ranking) /\
  (forall blk cnt,
      In (blk, cnt) ranking <->
      In blk img_blocks /\ cnt = occurrences blk img_blocks) /\
  (forall i j p q,
      0 <= i < j ->
      Py.index ranking i = Ok p -> Py.index ranking j = Ok q ->
      snd q <= snd p /\
      (snd p = snd q ->
       (first_index (fst p) img_blocks < first_index (fst q) img_blocks)%nat)).
Proof.
  intros ranking.
  assert (Hperm : Permutation ranking (Dict.items (Counter img_blocks)))
    by apply sorted_perm.
  split; [|split].
  - apply (Permutation_NoDup (l:=Dict.keys (Counter img_blocks)));
      [|apply Counter_keys_NoDup].
    symmetry. unfold Dict.keys. now apply Permutation_map.
  - intros blk cnt. rewrite <- Counter_items. split; intros H.
    + now apply (Permutation_in _ Hperm).
    + now apply (Permutation_in _ (Permutation_sym Hperm)).
  - intros i j p q Hij Hp Hq.
    apply index_inv in Hp; [|lia]. apply index_inv in Hq; [|lia].
    pose proof (Counter_keys_first_seen img_blocks) as Hfs.
    apply StronglySorted_map in Hfs.
    apply (sorted_reverse_stable snd) in Hfs.
    pose proof (StronglySorted_nth_error _ _ (Z.to_nat i) (Z.to_nat j) p q
                  Hfs ltac:(lia) Hp Hq) as Hpq.
    cbv beta in Hpq. split; [lia|].
    intros Heq. destruct Hpq as [Hlt|[_ Hfi]]; [lia|exact Hfi].
Qed.

(** ** Assigning colours *)

Lemma enumerate_map_snd {A} (l : list A) : map snd (Py.enumerate l) = l.
Proof.
  unfold Py.enumerate.
  assert (H : forall (idx : list Z) (l : list A),
             length idx = length l -> map snd (combine idx l) = l).
  { clear l. induction idx as [|i idx IH]; intros [|a l] Hl;
      try discriminate; [reflexivity|].
    cbn [combine map snd]. f_equal. apply IH. now inversion Hl. }
  apply H. now rewrite length_map, length_seq.
Qed.

Section Assignment.
Variable color_palette : list color.

(** The colour the loop gives the block of rank [i]. *)
Let color_at (i : Z) : color :=
  if i <? Py.len color_palette - 1
  then nth (Z.to_nat i) color_palette black
  else black.

Lemma assign_loop (l : list (Z * (block * Z)))
    (acc : Dict.t (K:=block) (V:=color)) :
  (forall p, In p l -> 0 <= fst p) ->
  NoDup (map (fun p => fst (snd p)) l) ->
  (forall p, In p l -> ~ In (fst (snd p)) (Dict.keys acc)) ->
  for_in l
    (fun block_color_map '(i, (blk, _)) =>
       if i <? Py.len color_palette - 1 then
         c <-? Py.index color_palette i ;;
         Ok (Dict.set block_eqb block_color_map blk c)
       else
         Ok (Dict.set block_eqb block_color_map blk black))
    acc =
  Ok (acc ++ map (fun p => (fst (snd p), color_at (fst p))) l).
Proof.
  revert acc. induction l as [|[i [blk cnt]] l IH]; intros acc Hidx Hnd Hacc.
  - cbn [for_in map]. now rewrite app_nil_r.
  - cbn [for_in map fst snd].
    cbn [map fst snd] in Hnd. inversion Hnd as [|? ? Hnotin Hnd']; subst.
    assert (Hi : 0 <= i) by (apply (Hidx (i, (blk, cnt))); now left).
    assert (Hfresh : ~ In blk (Dict.keys acc))
      by (apply (Hacc (i, (blk, cnt))); now left).
    assert (Hstep :
      (if i <? Py.len color_palette - 1
       then c <-? Py.index color_palette i ;;
            Ok (Dict.set block_eqb acc blk c)
       else Ok (Dict.set block_eqb acc blk black)) =
      Ok (acc ++ [(blk, color_at i)])).
    { unfold color_at. destruct (Z.ltb_spec i (Py.len color_palette - 1)).
      - rewrite (index_nth_error color_palette i
                   (nth (Z.to_nat i) color_palette black)); [|exact Hi|].
        + cbn [rbind]. now rewrite set_fresh.
        + apply nth_error_nth'. unfold Py.len in *. lia.
      - now rewrite set_fresh. }
    rewrite Hstep. cbn [rbind]. rewrite IH.
    + now rewrite <- app_assoc.
    + intros p Hp. apply Hidx. now right.
    + exact Hnd'.
    + intros p Hp. unfold Dict.keys. rewrite map_app, in_app_iff.
      cbn [map fst In]. intros [Hin|[Heq|[]]].
      * revert Hin. apply Hacc. now right.
      * apply Hnotin. rewrite Heq. 
        apply (in_map (fun p => fst (snd p))) in Hp. exact Hp.
Qed.

(** The colour map lists the ranked blocks in rank order; the loop never
    indexes the palette out of range. *)
Lemma assign_colors_to_blocks_ok
    (block_frequencies : Dict.t (K:=block) (V:=Z)) :
  NoDup (Dict.keys block_frequencies) ->
  assign_colors_to_blocks block_frequencies color_palette =
  Ok (map (fun p => (fst (snd p), color_at (fst p)))
          (Py.enumerate (sorted_blocks block_frequencies))).
Proof.
  intros Hnd. unfold assign_colors_to_blocks.
  rewrite assign_loop; [reflexivity| | |].
  - intros [i p] Hin. apply enumerate_In in Hin. cbn [fst]. lia.
  - rewrite <- (map_map snd fst), enumerate_map_snd.
    apply (Permutation_NoDup (l:=Dict.keys block_frequencies));
      [|exact Hnd].
    symmetry. unfold Dict.keys, sorted_blocks.
    apply Permutation_map, sorted_perm.
  - intros p _ [].
Qed.

Lemma assign_colors_to_blocks_rank
    (block_frequencies : Dict.t (K:=block) (V:=Z)) (i : Z) (blk : block)
    (cnt : Z) :
  NoDup (Dict.keys block_frequencies) ->
  0 <= i ->
  Py.index (sorted_blocks block_frequencies) i = Ok (blk, cnt) ->
  exists block_color_map,
    assign_colors_to_blocks block_frequencies color_palette =
      Ok block_color_map /\
    Dict.get block_eqb block_color_map blk = Some (color_at i).
Proof.
  intros Hnd Hi Hidx. eexists. split; [now apply assign_colors_to_blocks_ok|].
  apply index_inv in Hidx; [|exact Hi]. apply get_In.
  - unfold Dict.keys. rewrite map_map. cbn [fst].
    rewrite <- (map_map snd fst), enumerate_map_snd.
    apply (Permutation_NoDup (l:=Dict.keys block_frequencies));
      [|exact Hnd].
    symmetry. unfold Dict.keys, sorted_blocks.
    apply Permutation_map, sorted_perm.
  - apply in_map_iff. exists (i, (blk, cnt)). split; [reflexivity|].
    apply (nth_error_In _ (Z.to_nat i)).
    rewrite enumerate_nth_error, Hidx. cbn [option_map].
    now rewrite Z2Nat.id.
Qed.
End Assignment.

(** The palette formula has period 51. *)
Lemma palette_color_period (i : Z) :
  palette_color (i + 51) = palette_color i.
Proof.
  unfold palette_color.
  replace ((i + 51) * 50) with (i * 50 + 10 * 255) by lia.
  replace ((i + 51) * 80) with (i * 80 + 16 * 255) by lia.
  replace ((i + 51) * 110) with (i * 110 + 22 * 255) by lia.
  now rewrite !Z.mod_add by lia.
Qed.

Lemma palette_color_injective (i j : Z) :
  0 <= i < j -> j < 51 -> palette_color i <> palette_color j.
Proof.
  intros Hij Hj H. unfold palette_color in H. inversion H as [[H1 H2 H3]].
  clear H H2 H3. Z.div_mod_to_equations. lia.
Qed.

Lemma palette_color_not_sentinel (i : Z) :
  1 <= i < 51 -> palette_color i <> white /\ palette_color i <> black.
Proof.
  intros Hi. unfold palette_color, white, black.
  split; intros H; inversion H as [[H1 H2 H3]]; clear H H2 H3;
    Z.div_mod_to_equations; lia.
Qed.

(** C1 (as amended).  For [max_colors >= 2] every distinct block receives
    the colour of its rank: rank 0 receives white, a rank [i] with
    [1 <= i <= max_colors - 2] receives palette entry [i], and every rank at
    or beyond [max_colors - 1] receives pure black.  Among the ranks below
    both 51 and [max_colors - 1] no two blocks share a colour and none of
    the ranks 1 to 50 is black; the palette formula has period 51, so
    nothing is promised about uniqueness from rank 51 on. *)
Theorem C1_rank_colors (self : ECBImageProcessor) (img_blocks : list block) :
  2 <= max_colors self ->
  let ranking := sorted_blocks (count_block_frequencies img_blocks) in
  exists block_color_map,
    assign_colors_to_blocks (count_block_frequencies img_blocks)
                            (generate_color_palette self) =
      Ok block_color_map /\
    (forall i blk cnt,
        0 <= i -> Py.index ranking i = Ok (blk, cnt) ->
        Dict.get block_eqb block_color_map blk =
        Some (if i =? 0 then white
              else if i <? max_colors self - 1 then palette_color i
                   else black)) /\
    (forall i j bi ci bj cj,
        0 <= i < j -> j < 51 -> j < max_colors self - 1 ->
        Py.index ranking i = Ok (bi, ci) ->
        Py.index ranking j = Ok (bj, cj) ->
        Dict.get block_eqb block_color_map bi <>
          Dict.get block_eqb block_color_map bj /\
        Dict.get block_eqb block_color_map bj <> Some black).
Proof.
  intros Hmc ranking.
  pose proof (Counter_keys_NoDup img_blocks) as Hnd.
  pose proof (assign_colors_to_blocks_ok (generate_color_palette self)
                (count_block_frequencies img_blocks) Hnd) as Hok.
  eexists. split; [exact Hok|].
  assert (Hrank : forall i blk cnt,
    0 <= i -> Py.index ranking i = Ok (blk, cnt) ->
    Dict.get block_eqb
      (map (fun p => (fst (snd p),
                      if fst p <? Py.len (generate_color_palette self) - 1
                      then nth (Z.to_nat (fst p))
                               (generate_color_palette self) black
                      else black))
           (Py.enumerate (sorted_blocks (count_block_frequencies img_blocks))))
      blk =
    Some (if i =? 0 then white
          else if i <? max_colors self - 1 then palette_color i else black)).
  { intros i blk cnt Hi Hidx.
    destruct (assign_colors_to_blocks_rank (generate_color_palette self)
                (count_block_frequencies img_blocks) i blk cnt Hnd Hi Hidx)
      as [m [Hm Hget]].
    rewrite Hok in Hm. inversion Hm as [Hm']. rewrite Hm'. rewrite Hget.
    f_equal. rewrite palette_length, Z.max_r by lia.
    destruct (Z.eqb_spec i 0) as [->|Hnz].
    - destruct (Z.ltb_spec 0 (max_colors self - 1)); [|lia].
      now rewrite palette_shape.
    - destruct (Z.ltb_spec i (max_colors self - 1)); [|reflexivity].
      apply nth_error_nth. apply index_inv; [exact Hi|].
      apply palette_middle. lia. }
  split; [exact Hrank|].
  intros i j bi ci bj cj Hij Hj Hjm Hbi Hbj.
  rewrite (Hrank i bi ci) by (lia || exact Hbi).
  rewrite (Hrank j bj cj) by (lia || exact Hbj).
  destruct (Z.eqb_spec j 0); [lia|].
  destruct (Z.ltb_spec j (max_colors self - 1)); [|lia].
  destruct (palette_color_not_sentinel j ltac:(lia)) as [Hw Hb].
  split; [|congruence].
  destruct (Z.eqb_spec i 0); [congruence|].
  destruct (Z.ltb_spec i (max_colors self - 1)); [|lia].
  pose proof (palette_color_injective i j ltac:(lia) Hj). congruence.
Qed.

Lemma C1_rank_colors_witness :
  exists block_color_map,
    assign_colors_to_blocks
      (count_block_frequencies [zeros 16; repeat x01 16; zeros 16])
      (generate_color_palette (default_processor "ct.bin")) =
      Ok block_color_map /\
    Dict.get block_eqb block_color_map (zeros 16) = Some white /\
    Dict.get block_eqb block_color_map (repeat x01 16) = Some (50, 80, 110).
Proof.
  destruct (C1_rank_colors (default_processor "ct.bin")
              [zeros 16; repeat x01 16; zeros 16] ltac:(simpl; lia))
    as [m [Hm [Hrank _]]].
  exists m. split; [exact Hm|]. split.
  - apply (Hrank 0 (zeros 16) 2); [lia|reflexivity].
  - apply (Hrank 1 (repeat x01 16) 1); [lia|reflexivity].
Defined.

(** C1 as the specification words it fails on 53 distinct one-byte blocks
    with the default palette: ranks 1 and 52 are both among the top
    [max_colors - 2 = 252] ranks and receive the same colour (50, 80, 110),
    and rank 51 receives black, the overflow colour. *)
Lemma C1_unique_colors_counterexample :
  let self := init "ct.bin" 1 254 true 1 in
  exists img_blocks block_color_map b1 b51 b52,
    break_into_blocks self (distinct_bytes 53) = Ok img_blocks /\
    assign_colors_to_blocks (count_block_frequencies img_blocks)
                            (generate_color_palette self) =
      Ok block_color_map /\
    Py.index (sorted_blocks (count_block_frequencies img_blocks)) 1 =
      Ok (b1, 1) /\
    Py.index (sorted_blocks (count_block_frequencies img_blocks)) 51 =
      Ok (b51, 1) /\
    Py.index (sorted_blocks (count_block_frequencies img_blocks)) 52 =
      Ok (b52, 1) /\
    52 < max_colors self - 2 /\
    b1 <> b52 /\
    Dict.get block_eqb block_color_map b1 = Some (50, 80, 110) /\
    Dict.get block_eqb block_color_map b52 = Some (50, 80, 110) /\
    Dict.get block_eqb block_color_map b51 = Some black.
Proof.
  cbv zeta.
  exists (map (fun b => [b]) (distinct_bytes 53)).
  eexists. exists [x01], [x33], [x34].
  split; [vm_compute; reflexivity|].
  split; [vm_compute; reflexivity|].
  repeat split; try (vm_compute; reflexivity).
  discriminate.
Qed.

(** ** Whole runs *)

Lemma flat_map_no_pixels {A C} (f : A -> C) (l : list A) :
  flat_map (fun a => repeat (f a) 0) l = [].
Proof. induction l as [|a l IH]; [reflexivity|exact IH]. Qed.


Section Runs.
Variable self : ECBImageProcessor.
Variable fs : filesystem.



(** A successful read means a readable file and a non-zero block size. *)
Lemma read_image_bytes_inv (img_data : bytes) (t : list event) :
  read_image_bytes self fs = (Ok img_data, t) ->
  block_size self <> 0 /\ t = [EvOpen (image_path self)].
Proof.
  unfold read_image_bytes, open_read, lift, Py.mod_.
  destruct (fs (image_path self)) as [data|];
    [|cbn [bind]; discriminate].
  destruct (Z.eqb_spec (block_size self) 0) as [Hz|Hnz];
    cbn [bind ret app]; intros H; inversion H.
  split; [exact Hnz|reflexivity].
Qed.

Lemma read_image_bytes_zero_block_size (data : bytes) :
  fs (image_path self) = Some data -> block_size self = 0 ->
  read_image_bytes self fs =
  (Raise ZeroDivisionError, [EvOpen (image_path self)]).
Proof.
  intros Hfs Hz. unfold read_image_bytes, open_read. rewrite Hfs, Hz.
  reflexivity.
Qed.

(** The run, once its stages are known to succeed. *)
Lemma process_image_steps (img_data : bytes) (t : list event)
    (img_blocks : list block) (block_color_map : Dict.t (K:=block) (V:=color))
    (pixel_colors : list color) :
  read_image_bytes self fs = (Ok img_data, t) ->
  break_into_blocks self img_data = Ok img_blocks ->
  assign_colors_to_blocks (count_block_frequencies img_blocks)
                          (generate_color_palette self) =
    Ok block_color_map ->
  map_blocks_to_colors self img_blocks block_color_map = Ok pixel_colors ->
  process_image self fs =
  (fst (create_image self fs pixel_colors),
   t ++ snd (create_image self fs pixel_colors)).
Proof.
  intros Hr Hb Ha Hm. unfold process_image, lift.
  rewrite Hr, bind_ok. cbv beta. rewrite Hb, bind_ok. cbv beta zeta.
  rewrite Ha, bind_ok. cbv beta. rewrite Hm, bind_ok.
  cbn [fst snd app]. reflexivity.
Qed.

(** A negative block size makes [range] empty: there are no blocks. *)
Lemma break_into_blocks_negative (img_data : bytes) :
  block_size self < 0 -> break_into_blocks self img_data = Ok [].
Proof.
  intros Hneg. unfold break_into_blocks, Py.range.
  destruct (Z.eqb_spec (block_size self) 0); [lia|].
  unfold Py.range_list, Py.range_len.
  pose proof (len_nonneg img_data).
  destruct (Z.ltb_spec 0 (block_size self)); [lia|].
  destruct (Z.ltb_spec (Py.len img_data) 0); [lia|].
  rewrite andb_false_r. reflexivity.
Qed.

Lemma break_into_blocks_empty :
  block_size self <> 0 -> break_into_blocks self [] = Ok [].
Proof.
  intros Hnz. unfold break_into_blocks, Py.range.
  destruct (Z.eqb_spec (block_size self) 0); [contradiction|].
  unfold Py.range_list, Py.range_len. change (Py.len []) with 0.
  rewrite Z.ltb_irrefl, !andb_false_r. reflexivity.
Qed.

Lemma break_into_blocks_total (img_data : bytes) :
  block_size self <> 0 ->
  exists img_blocks, break_into_blocks self img_data = Ok img_blocks.
Proof.
  intros Hnz. unfold break_into_blocks, Py.range.
  destruct (Z.eqb_spec (block_size self) 0); [contradiction|].
  eexists. reflexivity.
Qed.

Lemma assign_colors_to_blocks_total (img_blocks : list block) :
  exists block_color_map,
    assign_colors_to_blocks (count_block_frequencies img_blocks)
                            (generate_color_palette self) =
    Ok block_color_map.
Proof.
  eexists. apply assign_colors_to_blocks_ok. apply Counter_keys_NoDup.
Qed.

(** With no pixels the width is 0 and the run raises where
    [create_image] divides by it; nothing has been drawn or saved. *)
Lemma process_image_no_pixels (img_data : bytes) (t : list event)
    (img_blocks : list block) (block_color_map : Dict.t (K:=block) (V:=color)) :
  read_image_bytes self fs = (Ok img_data, t) ->
  break_into_blocks self img_data = Ok img_blocks ->
  assign_colors_to_blocks (count_block_frequencies img_blocks)
                          (generate_color_palette self) =
    Ok block_color_map ->
  map_blocks_to_colors self img_blocks block_color_map = Ok [] ->
  process_image self fs = (Raise ZeroDivisionError, t).
Proof.
  intros Hr Hb Ha Hm.
  rewrite (process_image_steps _ _ _ _ _ Hr Hb Ha Hm).
  rewrite create_image_empty. cbn [fst snd]. now rewrite app_nil_r.
Qed.
End Runs.

(** C10.  When the pixel sequence is empty, because the truncated buffer
    is empty or because [pixels_per_block] exceeds [block_size] so that
    every block contributes no pixel, [create_image] computes width 0, the
    division [total_pixels // img_width] raises [ZeroDivisionError], and the
    run ends with that error after the read alone: no image is created or
    saved. *)
Theorem C10_empty_pixel_sequence (self : ECBImageProcessor) (fs : filesystem)
    (img_data : bytes) (t : list event) :
  read_image_bytes self fs = (Ok img_data, t) ->
  img_data = [] \/ block_size self < pixels_per_block self ->
  exists img_blocks block_color_map,
    break_into_blocks self img_data = Ok img_blocks /\
    assign_colors_to_blocks (count_block_frequencies img_blocks)
                            (generate_color_palette self) =
      Ok block_color_map /\
    map_blocks_to_colors self img_blocks block_color_map = Ok [] /\
    Py.isqrt (Py.len (@nil color)) = 0 /\
    Py.floordiv (Py.len (@nil color)) (Py.isqrt (Py.len (@nil color))) =
      Raise ZeroDivisionError /\
    create_image self fs [] = (Raise ZeroDivisionError, []) /\
    process_image self fs = (Raise ZeroDivisionError, t) /\
    t = [EvOpen (image_path self)] /\
    image_written t = false.
Proof.
  intros Hr Hcase.
  destruct (read_image_bytes_inv self fs img_data t Hr) as [Hnz Ht].
  destruct (break_into_blocks_total self img_data Hnz) as [blocks Hb].
  destruct (assign_colors_to_blocks_total self blocks) as [m Ha].
  assert (Hm : map_blocks_to_colors self blocks m = Ok []).
  { destruct Hcase as [Hempty|Hlt].
    - subst img_data. rewrite break_into_blocks_empty in Hb by exact Hnz.
      inversion Hb. reflexivity.
    - destruct (Z.lt_ge_cases (block_size self) 0) as [Hneg|Hpos].
      + rewrite break_into_blocks_negative in Hb by exact Hneg.
        inversion Hb. reflexivity.
      + rewrite map_blocks_to_colors_ok by lia.
        rewrite Z.div_small by lia. cbn [Z.to_nat].
        now rewrite flat_map_no_pixels. }
  exists blocks, m.
  split; [exact Hb|]. split; [exact Ha|]. split; [exact Hm|].
  split; [reflexivity|]. split; [reflexivity|]. split; [reflexivity|].
  split; [exact (process_image_no_pixels self fs _ _ _ _ Hr Hb Ha Hm)|].
  split; [exact Ht|]. subst t. reflexivity.
Qed.

Lemma C10_empty_pixel_sequence_witness :
  process_image (init "ct.bin" 16 254 true 32) (one_file (zeros 40)) =
  (Raise ZeroDivisionError, [EvOpen "ct.bin"%string]).
Proof.
  destruct (C10_empty_pixel_sequence (init "ct.bin" 16 254 true 32)
              (one_file (zeros 40)) (zeros 32) [EvOpen "ct.bin"%string]
              eq_refl)
    as [blocks [m [_ [_ [_ [_ [_ [_ [Hp _]]]]]]]]].
  - right. simpl. lia.
  - exact Hp.
Defined.

(** C8 (as amended).  In every run that gets past reading its input, when
    a positive [pixels_per_block] divides [block_size] the pixel sequence
    holds (number of blocks) * (block_size / pixels_per_block) pixels, and
    the run draws that many points. *)
Theorem C8_pixel_count (self : ECBImageProcessor) (fs : filesystem)
    (img_data : bytes) (t : list event) :
  read_image_bytes self fs = (Ok img_data, t) ->
  0 < pixels_per_block self ->
  (pixels_per_block self | block_size self) ->
  exists img_blocks block_color_map pixel_colors,
    break_into_blocks self img_data = Ok img_blocks /\
    assign_colors_to_blocks (count_block_frequencies img_blocks)
                            (generate_color_palette self) =
      Ok block_color_map /\
    map_blocks_to_colors self img_blocks block_color_map = Ok pixel_colors /\
    Py.len pixel_colors =
      Py.len img_blocks * (block_size self / pixels_per_block self) /\
    rendered_pixels (snd (process_image self fs)) =
      Py.len img_blocks * (block_size self / pixels_per_block self).
Proof.
  intros Hr Hp _.
  destruct (read_image_bytes_inv self fs img_data t Hr) as [Hnz Ht].
  destruct (break_into_blocks_total self img_data Hnz) as [blocks Hb].
  destruct (assign_colors_to_blocks_total self blocks) as [m Ha].
  destruct (map_blocks_to_colors_length self m blocks ltac:(lia))
    as [px [Hm Hlen]].
  assert (Hcount : Py.len px =
                   Py.len blocks *
                   (block_size self / pixels_per_block self)).
  { destruct (Z.lt_ge_cases (block_size self) 0) as [Hneg|Hpos].
    - rewrite break_into_blocks_negative in Hb by exact Hneg.
      inversion Hb; subst blocks. rewrite Hlen. reflexivity.
    - rewrite Hlen, Z.max_r; [reflexivity|]. apply Z.div_pos; lia. }
  exists blocks, m, px.
  split; [exact Hb|]. split; [exact Ha|]. split; [exact Hm|].
  split; [exact Hcount|].
  rewrite (process_image_steps self fs _ _ _ _ _ Hr Hb Ha Hm).
  cbn [snd]. subst t. unfold rendered_pixels.
  cbn [app filter is_point].
  fold (rendered_pixels (snd (create_image self fs px))).
  now rewrite create_image_rendered.
Qed.

(** C8 as the specification words it fails for a negative divisor: -4
    divides 16, but [range(16 // -4)] is empty, so the single block
    yields no pixel, not 1 * (16 / -4) of them. *)
Lemma C8_negative_divisor_counterexample :
  let self := init "ct.bin" 16 254 true (-4) in
  let fs := one_file (zeros 16) in
  (pixels_per_block self | block_size self) /\
  read_image_bytes self fs = (Ok (zeros 16), [EvOpen "ct.bin"%string]) /\
  break_into_blocks self (zeros 16) = Ok [zeros 16] /\
  assign_colors_to_blocks (count_block_frequencies [zeros 16])
                          (generate_color_palette self) =
    Ok [(zeros 16, white)] /\
  map_blocks_to_colors self [zeros 16] [(zeros 16, white)] = Ok [] /\
  rendered_pixels (snd (process_image self fs)) = 0 /\
  Py.len [zeros 16] * (block_size self / pixels_per_block self) = -4.
Proof.
  cbv zeta. split; [exists (-4); reflexivity|].
  repeat split; vm_compute; reflexivity.
Qed.

Section Validation.
Variable self : ECBImageProcessor.
Variable fs : filesystem.
Variable data : bytes.
Hypothesis Hfs : fs (image_path self) = Some data.


(** A block size of zero or below ends the run with a division by zero,
    after the file has been read. *)
Lemma process_image_nonpositive_block_size :
  block_size self <= 0 ->
  process_image self fs =
  (Raise ZeroDivisionError, [EvOpen (image_path self)]).
Proof.
  intros Hle. destruct (Z.eq_dec (block_size self) 0) as [Hz|Hnz].
  - unfold process_image.
    now rewrite (read_image_bytes_zero_block_size self fs data Hfs Hz).
  - destruct (assign_colors_to_blocks_total self []) as [m Ha].
    apply (process_image_no_pixels self fs
             (Py.slice data 0
                (Py.len data - Py.len data mod block_size self))
             _ [] m).
    + apply (read_image_bytes_ok self fs data Hfs Hnz).
    + apply break_into_blocks_negative. lia.
    + exact Ha.
    + reflexivity.
Qed.

End Validation.




(** ** The all-zero scenario *)

(** C5 (as amended).  For 32 zero bytes and [block_size = 16] there are two
    identical blocks, both mapped to palette entry 0, pure white.  The pixel
    sequence is 32 white pixels for [pixels_per_block = 1] and 2 white
    pixels, one per block, for [pixels_per_block = 16]. *)
Theorem C5_zero_bytes_scenario :
  let fs := one_file (zeros 32) in
  let self1 := init "ct.bin" 16 254 true 1 in
  let self16 := init "ct.bin" 16 254 true 16 in
  let img_blocks := [zeros 16; zeros 16] in
  exists block_color_map,
    read_image_bytes self1 fs = (Ok (zeros 32), [EvOpen "ct.bin"%string]) /\
    read_image_bytes self16 fs = (Ok (zeros 32), [EvOpen "ct.bin"%string]) /\
    break_into_blocks self1 (zeros 32) = Ok img_blocks /\
    break_into_blocks self16 (zeros 32) = Ok img_blocks /\
    assign_colors_to_blocks (count_block_frequencies img_blocks)
                            (generate_color_palette self1) =
      Ok block_color_map /\
    assign_colors_to_blocks (count_block_frequencies img_blocks)
                            (generate_color_palette self16) =
      Ok block_color_map /\
    Py.index (generate_color_palette self1) 0 = Ok white /\
    Dict.get block_eqb block_color_map (zeros 16) = Some white /\
    map_blocks_to_colors self1 img_blocks block_color_map =
      Ok (repeat white 32) /\
    map_blocks_to_colors self16 img_blocks block_color_map =
      Ok [white; white].
Proof.
  cbv zeta. exists [(zeros 16, white)].
  repeat split; vm_compute; reflexivity.
Qed.

(** C5 as the specification words it fails for [pixels_per_block = 16]:
    the pixel sequence has 2 pixels, not two runs of 16. *)
Lemma C5_runs_of_16_counterexample :
  let self16 := init "ct.bin" 16 254 true 16 in
  let img_blocks := [zeros 16; zeros 16] in
  break_into_blocks self16 (zeros 32) = Ok img_blocks /\
  assign_colors_to_blocks (count_block_frequencies img_blocks)
                          (generate_color_palette self16) =
    Ok [(zeros 16, white)] /\
  map_blocks_to_colors self16 img_blocks [(zeros 16, white)] =
    Ok [white; white] /\
  map_blocks_to_colors self16 img_blocks [(zeros 16, white)] <>
    Ok (repeat white 16 ++ repeat white 16).
Proof.
  cbv zeta. repeat split; try (vm_compute; reflexivity).
  vm_compute. discriminate.
Qed.

(** ** Concrete instances *)

Lemma C7_order_preservation_witness :
  exists pixel_colors,
    map_blocks_to_colors (init "ct.bin" 16 254 true 4)
      [repeat x01 16; zeros 16] [(zeros 16, white); (repeat x01 16, black)] =
      Ok pixel_colors /\
    Py.index pixel_colors (1 * (16 / 4) + 2) = Ok white.
Proof.
  destruct (C7_order_preservation (init "ct.bin" 16 254 true 4)
              [repeat x01 16; zeros 16]
              [(zeros 16, white); (repeat x01 16, black)])
    as [px [Hpx Hidx]].
  - simpl. lia.
  - exists px. split; [exact Hpx|].
    apply (Hidx 1 2 (zeros 16)); [lia| |reflexivity].
    cbn [block_size pixels_per_block]. change (16 / 4) with 4. lia.
Defined.

Lemma C8_pixel_count_witness :
  exists img_blocks block_color_map pixel_colors,
    break_into_blocks (init "ct.bin" 16 254 true 4) (distinct_bytes 32) =
      Ok img_blocks /\
    assign_colors_to_blocks (count_block_frequencies img_blocks)
      (generate_color_palette (init "ct.bin" 16 254 true 4)) =
      Ok block_color_map /\
    map_blocks_to_colors (init "ct.bin" 16 254 true 4) img_blocks
                         block_color_map = Ok pixel_colors /\
    Py.len pixel_colors = Py.len img_blocks * (16 / 4).
Proof.
  destruct (C8_pixel_count (init "ct.bin" 16 254 true 4)
              (one_file (distinct_bytes 40)) (distinct_bytes 32)
              [EvOpen "ct.bin"%string])
    as [bl [m [px [Hb [Ha [Hm [Hlen _]]]]]]].
  - reflexivity.
  - simpl. lia.
  - exists 4. reflexivity.
  - exists bl, m, px. repeat split; assumption.
Defined.

(** ** Further facts about a run *)

(** Distinct linear indices are drawn at distinct points inside the image,
    so no pixel of the sequence is overwritten by a later one. *)
Lemma placement_injective (w k k' : Z) :
  0 < w -> (k mod w, k / w) = (k' mod w, k' / w) -> k = k'.
Proof.
  intros Hw H. inversion H as [[Hm Hd]].
  rewrite (Z.div_mod k w), (Z.div_mod k' w) by lia. now rewrite Hm, Hd.
Qed.

Lemma placement_in_bounds (n w h k : Z) :
  0 < w -> n <= h * w -> 0 <= k < n ->
  0 <= k mod w < w /\ 0 <= k / w < h /\ 0 <= h - k / w - 1 < h.
Proof.
  intros Hw Hh Hk.
  pose proof (Z.mod_pos_bound k w Hw).
  assert (0 <= k / w) by (apply Z.div_pos; lia).
  assert (k / w < h) by (apply Z.div_lt_upper_bound; nia).
  lia.
Qed.

(** Every input block is a key of the colour map, so the expansion never
    falls back on its default. *)
Lemma input_block_is_assigned (self : ECBImageProcessor)
    (img_blocks : list block) (blk : block) :
  In blk img_blocks ->
  exists block_color_map c,
    assign_colors_to_blocks (count_block_frequencies img_blocks)
                            (generate_color_palette self) =
      Ok block_color_map /\
    Dict.get block_eqb block_color_map blk = Some c.
Proof.
  intros Hin.
  pose proof (Counter_keys_NoDup img_blocks) as Hnd.
  assert (Hr : In (blk, occurrences blk img_blocks)
                  (sorted_blocks (count_block_frequencies img_blocks))).
  { apply (Permutation_in _
             (Permutation_sym (sorted_perm snd true
                (Dict.items (Counter img_blocks))))).
    apply Counter_items. now split. }
  apply In_nth_error in Hr. destruct Hr as [n Hn].
  destruct (assign_colors_to_blocks_rank (generate_color_palette self)
              (count_block_frequencies img_blocks) (Z.of_nat n) blk
              (occurrences blk img_blocks) Hnd ltac:(lia))
    as [m [Hm Hget]].
  - apply index_nth_error; [lia|]. now rewrite Nat2Z.id.
  - eexists m, _. split; [exact Hm|exact Hget].
Qed.

(** With a negative quotient [range] is empty: a negative
    [pixels_per_block] yields no pixels at all. *)
Lemma map_blocks_to_colors_negative (self : ECBImageProcessor)
    (img_blocks : list block) (block_color_map : Dict.t (K:=block) (V:=color)) :
  pixels_per_block self < 0 -> 0 <= block_size self ->
  map_blocks_to_colors self img_blocks block_color_map = Ok [].
Proof.
  intros Hp Hb. rewrite map_blocks_to_colors_ok by lia.
  assert (Hq : block_size self / pixels_per_block self <= 0).
  { pose proof (Z.div_mod (block_size self) (pixels_per_block self)
                  ltac:(lia)).
    pose proof (Z.mod_neg_bound (block_size self) (pixels_per_block self) Hp).
    nia. }
  replace (Z.to_nat (block_size self / pixels_per_block self)) with 0%nat
    by lia.
  apply f_equal, flat_map_no_pixels.
Qed.

(** * Further properties of the code *)

(** ** Reading and chunking at the edges *)


(** A slice whose stop lies at or beyond the end runs to the end. *)
Lemma slice_clamped {A} (l : list A) (a b : Z) :
  0 <= a <= Py.len l -> a <= b ->
  Py.slice l a b = firstn (Z.to_nat (b - a)) (skipn (Z.to_nat a) l).
Proof.
  intros Ha Hab. destruct (Z.le_gt_cases b (Py.len l)) as [Hb|Hb].
  - apply slice_in_range; lia.
  - unfold Py.slice, Py.bound.
    destruct (Z.ltb_spec a 0); [lia|]. destruct (Z.ltb_spec b 0); [lia|].
    replace (Z.to_nat (Z.min (Py.len l) (Z.max 0 a))) with (Z.to_nat a)
      by lia.
    replace (Z.to_nat (Z.min (Py.len l) (Z.max 0 b)))
      with (Z.to_nat (Py.len l)) by lia.
    unfold Py.len in *.
    rewrite !firstn_all2; [reflexivity| |]; rewrite length_skipn; lia.
Qed.

(** X2.  A negative block size truncates nothing and yields no block:
    Python's modulus takes the sign of the divisor, so the slice bound is
    at or beyond the end of the buffer, and [range] with a negative step
    is empty. *)
Theorem X2_negative_block_size (self : ECBImageProcessor) (fs : filesystem)
    (data : bytes) :
  fs (image_path self) = Some data ->
  block_size self < 0 ->
  read_image_bytes self fs = (Ok data, [EvOpen (image_path self)]) /\
  break_into_blocks self data = Ok [].
Proof.
  intros Hfs Hneg. split; [|now apply break_into_blocks_negative].
  rewrite (read_image_bytes_ok self fs data Hfs) by lia.
  pose proof (len_nonneg data) as HL.
  pose proof (Z.mod_neg_bound (Py.len data) (block_size self) Hneg) as Hm.
  rewrite slice_clamped by lia.
  cbn [Z.to_nat skipn]. rewrite firstn_all2; [reflexivity|].
  unfold Py.len in *. lia.
Qed.

Lemma X2_negative_block_size_witness :
  read_image_bytes (init "ct.bin" (-16) 254 true 16)
                   (one_file (distinct_bytes 20)) =
    (Ok (distinct_bytes 20), [EvOpen "ct.bin"%string]) /\
  break_into_blocks (init "ct.bin" (-16) 254 true 16) (distinct_bytes 20) =
    Ok [].
Proof.
  apply (X2_negative_block_size (init "ct.bin" (-16) 254 true 16)
           (one_file (distinct_bytes 20)) (distinct_bytes 20) eq_refl).
  simpl. lia.
Defined.

(** Chunks of width [b] tile any list that fits into [q] of them. *)
Lemma concat_chunks_le {A} (b q : nat) (l : list A) :
  (length l <= q * b)%nat ->
  concat (map (fun k => firstn b (skipn (k * b) l)) (seq 0 q)) = l.
Proof.
  revert l. induction q as [|q IH]; intros l Hl.
  - destruct l; [reflexivity|cbn [length] in Hl; lia].
  - cbn [seq map concat]. rewrite <- seq_shift, map_map.
    cbn [Nat.mul skipn].
    transitivity (firstn b l ++ skipn b l); [|apply firstn_skipn].
    f_equal.
    rewrite <- (IH (skipn b l)) by (rewrite length_skipn; lia).
    f_equal. apply map_ext. intros k.
    rewrite skipn_skipn. do 2 f_equal. lia.
Qed.

Lemma range_len_ceiling (L B : Z) :
  0 < B -> 0 <= L -> Py.range_len 0 L B = (L + B - 1) / B.
Proof.
  intros HB HL. unfold Py.range_len.
  destruct (Z.ltb_spec 0 B); [|lia]. cbn [andb].
  destruct (Z.ltb_spec 0 L) as [Hpos|Hz].
  - replace (L + B - 1) with (L - 1 - 0 + 1 * B) by lia.
    rewrite Z.div_add by lia. lia.
  - destruct (Z.ltb_spec B 0); [lia|]. cbn [andb].
    replace L with 0 by lia. rewrite Z.div_small; lia.
Qed.

(** The blocks of any buffer, aligned or not. *)
Lemma break_into_blocks_any (self : ECBImageProcessor) (img_data : bytes) :
  0 < block_size self ->
  break_into_blocks self img_data =
  Ok (map (fun k => firstn (Z.to_nat (block_size self))
                           (skipn (k * Z.to_nat (block_size self)) img_data))
          (seq 0 (Z.to_nat ((Py.len img_data + block_size self - 1)
                            / block_size self)))).
Proof.
  intros HB. pose proof (len_nonneg img_data) as HL.
  unfold break_into_blocks, Py.range.
  destruct (Z.eqb_spec (block_size self) 0); [lia|]. cbn [rbind]. f_equal.
  unfold Py.range_list. rewrite range_len_ceiling by lia.
  rewrite map_map. apply map_ext_in. intros k Hk. apply in_seq in Hk.
  assert (Hq : Z.of_nat k * block_size self < Py.len img_data).
  { assert (Z.of_nat k <
            (Py.len img_data + block_size self - 1) / block_size self)
      by lia.
    pose proof (Z.div_mod (Py.len img_data + block_size self - 1)
                  (block_size self) ltac:(lia)).
    pose proof (Z.mod_pos_bound (Py.len img_data + block_size self - 1)
                  (block_size self) HB).
    nia. }
  rewrite slice_clamped by nia.
  f_equal; [f_equal; lia|]. f_equal. nia.
Qed.

(** X3.  [break_into_blocks] itself loses nothing: for a positive block
    size and any buffer, aligned or not, it returns [ceil(L / B)] blocks
    whose concatenation is the buffer; block [j] has [min(B, L - j * B)]
    bytes, so only the last block can be short.  (The tail is dropped
    earlier, by [read_image_bytes].) *)
Theorem X3_break_into_blocks_lossless (self : ECBImageProcessor)
    (img_data : bytes) :
  0 < block_size self ->
  let L := Py.len img_data in
  let B := block_size self in
  exists img_blocks,
    break_into_blocks self img_data = Ok img_blocks /\
    concat img_blocks = img_data /\
    Py.len img_blocks = (L + B - 1) / B /\
    forall j blk,
      0 <= j -> Py.index img_blocks j = Ok blk ->
      Py.len blk = Z.min B (L - j * B).
Proof.
  intros HB L B. pose proof (len_nonneg img_data) as HL. fold L in HL.
  assert (HLeq : L = Z.of_nat (length img_data)) by reflexivity.
  pose proof (Z.div_mod (L + B - 1) B ltac:(lia)) as Hdm.
  pose proof (Z.mod_pos_bound (L + B - 1) B HB) as Hm.
  assert (Hq : 0 <= (L + B - 1) / B) by (apply Z.div_pos; lia).
  eexists. split; [now apply break_into_blocks_any|].
  fold L B. split; [|split].
  - apply concat_chunks_le. nia.
  - unfold Py.len. rewrite length_map, length_seq. lia.
  - intros j blk Hj Hidx. apply index_inv in Hidx; [|exact Hj].
    rewrite nth_error_map, nth_error_seq in Hidx.
    destruct (Nat.ltb_spec (Z.to_nat j) (Z.to_nat ((L + B - 1) / B)));
      [|discriminate].
    cbn [option_map Nat.add] in Hidx. inversion Hidx; subst blk.
    unfold Py.len. rewrite length_firstn, length_skipn. nia.
Qed.

Lemma X3_break_into_blocks_lossless_witness :
  exists img_blocks,
    break_into_blocks (default_processor "ct.bin") (distinct_bytes 20) =
      Ok img_blocks /\
    concat img_blocks = distinct_bytes 20 /\
    Py.len img_blocks = 2.
Proof.
  destruct (X3_break_into_blocks_lossless (default_processor "ct.bin")
              (distinct_bytes 20)) as [bl [H1 [H2 [H3 _]]]].
  - simpl. lia.
  - exists bl. repeat split; assumption.
Defined.

(** X4.  Appending bytes to the input only appends blocks: for a positive
    block size the blocks of [data] are a prefix of the blocks of
    [data ++ extra]. *)
Theorem X4_blocks_of_longer_input (self : ECBImageProcessor)
    (fs fs' : filesystem) (data extra : bytes) :
  fs (image_path self) = Some data ->
  fs' (image_path self) = Some (data ++ extra) ->
  0 < block_size self ->
  exists img_data img_blocks img_data' rest,
    read_image_bytes self fs = (Ok img_data, [EvOpen (image_path self)]) /\
    break_into_blocks self img_data = Ok img_blocks /\
    read_image_bytes self fs' = (Ok img_data', [EvOpen (image_path self)]) /\
    break_into_blocks self img_data' = Ok (img_blocks ++ rest).
Proof.
  intros Hfs Hfs' HB.
  set (B := block_size self) in *.
  set (L := Py.len data). set (L' := Py.len (data ++ extra)).
  assert (HL : 0 <= L) by apply len_nonneg.
  assert (HLL : L <= L')
    by (unfold L, L'; rewrite len_app; pose proof (len_nonneg extra); lia).
  assert (HLeq : L = Z.of_nat (length data)) by reflexivity.
  assert (HLeq' : L' = Z.of_nat (length (data ++ extra))) by reflexivity.
  pose proof (Z.div_mod L B ltac:(lia)) as Hdm.
  pose proof (Z.mod_pos_bound L B HB) as Hm.
  pose proof (Z.div_mod L' B ltac:(lia)) as Hdm'.
  pose proof (Z.mod_pos_bound L' B HB) as Hm'.
  assert (Hq : 0 <= L / B) by (apply Z.div_pos; lia).
  assert (Hqq : L / B <= L' / B) by (apply Z.div_le_mono; lia).
  set (q := Z.to_nat (L / B)). set (q' := Z.to_nat (L' / B)).
  set (d := firstn (Z.to_nat (L - L mod B)) data).
  set (d' := firstn (Z.to_nat (L' - L' mod B)) (data ++ extra)).
  assert (Hd : length d = (q * Z.to_nat B)%nat)
    by (unfold d; rewrite length_firstn; unfold q; nia).
  assert (Hd' : length d' = (q' * Z.to_nat B)%nat)
    by (unfold d'; rewrite length_firstn; unfold q'; nia).
  exists d, (map (fun k => firstn (Z.to_nat B) (skipn (k * Z.to_nat B) d))
                 (seq 0 q)),
         d', (map (fun k => firstn (Z.to_nat B) (skipn (k * Z.to_nat B) d'))
                  (seq q (q' - q))).
  split; [|split; [|split]].
  - rewrite (read_image_bytes_ok self fs data Hfs) by (fold B; lia).
    now rewrite truncate_firstn.
  - apply break_into_blocks_chunks; [exact HB|].
    unfold Py.len. fold B. rewrite Hd. unfold q. nia.
  - rewrite (read_image_bytes_ok self fs' _ Hfs') by (fold B; lia).
    now rewrite truncate_firstn.
  - rewrite (break_into_blocks_chunks self d' q' HB)
      by (unfold Py.len; fold B; rewrite Hd'; unfold q'; nia).
    fold B. f_equal.
    replace q' with (q + (q' - q))%nat at 1 by (unfold q, q'; lia).
    rewrite seq_app, map_app. cbn [Nat.add]. f_equal.
    apply map_ext_in. intros k Hk. apply in_seq in Hk.
    unfold d, d'. rewrite !chunk_of_prefix by (unfold q in Hk; nia).
    rewrite skipn_app, firstn_app.
    replace (Z.to_nat B - length (skipn (k * Z.to_nat B) data))%nat
      with 0%nat by (rewrite length_skipn; unfold q in Hk; nia).
    cbn [firstn]. now rewrite app_nil_r.
Qed.

Lemma X4_blocks_of_longer_input_witness :
  exists img_data img_blocks img_data' rest,
    read_image_bytes (default_processor "ct.bin") (one_file (zeros 20)) =
      (Ok img_data, [EvOpen "ct.bin"%string]) /\
    break_into_blocks (default_processor "ct.bin") img_data =
      Ok img_blocks /\
    read_image_bytes (default_processor "ct.bin")
                     (one_file (zeros 20 ++ distinct_bytes 20)) =
      (Ok img_data', [EvOpen "ct.bin"%string]) /\
    break_into_blocks (default_processor "ct.bin") img_data' =
      Ok (img_blocks ++ rest).
Proof.
  apply (X4_blocks_of_longer_input (default_processor "ct.bin")
           (one_file (zeros 20)) (one_file (zeros 20 ++ distinct_bytes 20))
           (zeros 20) (distinct_bytes 20) eq_refl eq_refl).
  simpl. lia.
Defined.

(** ** The frequency table *)

Lemma total_count_app (d d' : Dict.t (K:=block) (V:=Z)) :
  total_count (d ++ d') = total_count d + total_count d'.
Proof.
  unfold total_count. induction d as [|p d IH]; cbn [app fold_right];
    [reflexivity|]. rewrite IH. lia.
Qed.

(** Counting one more occurrence raises the total by one. *)
Lemma total_count_increment (d : Dict.t (K:=block) (V:=Z)) (blk : block) :
  total_count
    (Dict.set block_eqb d blk (Dict.get_default block_eqb d blk 0 + 1)) =
  total_count d + 1.
Proof.
  unfold Dict.get_default. induction d as [|[k v] d IH].
  - reflexivity.
  - cbn [Dict.set Dict.get]. destruct (block_eqb blk k) eqn:E.
    + unfold total_count. cbn [fold_right snd]. lia.
    + unfold total_count in *. cbn [fold_right snd]. rewrite IH. lia.
Qed.

(** X5.  The frequency table accounts for every block exactly once: its
    counts add up to the number of blocks, and every count is at least 1. *)
Theorem X5_counts_add_up (img_blocks : list block) :
  total_count (count_block_frequencies img_blocks) = Py.len img_blocks /\
  forall blk cnt,
    Dict.get block_eqb (count_block_frequencies img_blocks) blk = Some cnt ->
    1 <= cnt <= Py.len img_blocks.
Proof.
  split.
  - unfold count_block_frequencies.
    induction img_blocks as [|x l IH] using rev_ind; [reflexivity|].
    rewrite Counter_snoc, total_count_increment, IH, len_app.
    reflexivity.
  - intros blk cnt Hget. unfold count_block_frequencies in Hget.
    rewrite Counter_get in Hget.
    destruct (Z.eqb_spec (occurrences blk img_blocks) 0); [discriminate|].
    inversion Hget; subst cnt.
    pose proof (len_nonneg (filter (block_eqb blk) img_blocks)).
    pose proof (filter_length_le (block_eqb blk) img_blocks).
    unfold occurrences, Py.len in *. lia.
Qed.

(** ** The colour map *)

(** The ranking is descending in the count, ties in first-seen order. *)
Lemma ranking_sorted (img_blocks : list block) :
  StronglySorted
    (fun p q => snd q < snd p \/
                (snd p = snd q /\
                 (first_index (fst p) img_blocks <
                  first_index (fst q) img_blocks)%nat))
    (sorted_blocks (count_block_frequencies img_blocks)).
Proof.
  pose proof (Counter_keys_first_seen img_blocks) as Hfs.
  apply StronglySorted_map in Hfs.
  apply (sorted_reverse_stable snd) in Hfs. exact Hfs.
Qed.

Lemma ranking_keys_NoDup (img_blocks : list block) :
  NoDup (map fst (sorted_blocks (count_block_frequencies img_blocks))).
Proof.
  apply (Permutation_NoDup (l:=Dict.keys (Counter img_blocks)));
    [|apply Counter_keys_NoDup].
  symmetry. unfold Dict.keys, sorted_blocks.
  apply Permutation_map, sorted_perm.
Qed.

Lemma ranking_In (img_blocks : list block) (blk : block) (cnt : Z) :
  In (blk, cnt) (sorted_blocks (count_block_frequencies img_blocks)) <->
  In blk img_blocks /\ cnt = occurrences blk img_blocks.
Proof.
  rewrite <- Counter_items. split; intros H.
  - now apply (Permutation_in _ (sorted_perm snd true _)).
  - now apply (Permutation_in _ (Permutation_sym (sorted_perm snd true _))).
Qed.

(** X6.  Whatever the palette, even an empty one, assigning colours never
    indexes it out of range; the colour map lists the distinct blocks in
    rank order, each exactly once, and holds every block of the input, so
    the expansion never falls back on its default colour. *)
Theorem X6_color_map_keys (img_blocks : list block)
    (color_palette : list color) :
  exists block_color_map,
    assign_colors_to_blocks (count_block_frequencies img_blocks)
                            color_palette = Ok block_color_map /\
    Dict.keys block_color_map =
      map fst (sorted_blocks (count_block_frequencies img_blocks)) /\
    NoDup (Dict.keys block_color_map) /\
    forall blk,
      In blk img_blocks <->
      exists c, Dict.get block_eqb block_color_map blk = Some c.
Proof.
  pose proof (Counter_keys_NoDup img_blocks) as Hnd.
  eexists. split; [now apply assign_colors_to_blocks_ok|].
  assert (Hkeys :
    Dict.keys
      (map (fun p : Z * (block * Z) =>
              (fst (snd p),
               if fst p <? Py.len color_palette - 1
               then nth (Z.to_nat (fst p)) color_palette black
               else black))
           (Py.enumerate (sorted_blocks (count_block_frequencies img_blocks))))
    = map fst (sorted_blocks (count_block_frequencies img_blocks))).
  { unfold Dict.keys. rewrite map_map. cbn [fst].
    now rewrite <- (map_map snd fst), enumerate_map_snd. }
  split; [exact Hkeys|]. split.
  - rewrite Hkeys. apply ranking_keys_NoDup.
  - intros blk. split.
    + intros Hin.
      match goal with
      | |- exists c, Dict.get block_eqb ?m blk = Some c =>
          destruct (Dict.get block_eqb m blk) as [c|] eqn:E
      end; [now exists c|].
      apply get_None in E. exfalso. apply E. rewrite Hkeys.
      apply in_map_iff. exists (blk, occurrences blk img_blocks).
      split; [reflexivity|]. apply ranking_In. now split.
    + intros [c Hc]. apply get_Some_In in Hc.
      apply (in_map fst) in Hc. cbn [fst] in Hc.
      fold (Dict.keys
              (map (fun p : Z * (block * Z) =>
                      (fst (snd p),
                       if fst p <? Py.len color_palette - 1
                       then nth (Z.to_nat (fst p)) color_palette black
                       else black))
                   (Py.enumerate
                      (sorted_blocks (count_block_frequencies img_blocks)))))
        in Hc.
      rewrite Hkeys in Hc. apply in_map_iff in Hc.
      destruct Hc as [[b cnt] [Hb Hin]]. cbn [fst] in Hb. subst b.
      now apply ranking_In in Hin.
Qed.

(** The colour of each rank, for any [max_colors]: the palette never has
    fewer than two entries. *)
Lemma rank_color (self : ECBImageProcessor) (img_blocks : list block)
    (i : Z) (blk : block) (cnt : Z) :
  0 <= i ->
  Py.index (sorted_blocks (count_block_frequencies img_blocks)) i =
    Ok (blk, cnt) ->
  exists block_color_map,
    assign_colors_to_blocks (count_block_frequencies img_blocks)
                            (generate_color_palette self) =
      Ok block_color_map /\
    Dict.get block_eqb block_color_map blk =
    Some (if i =? 0 then white
          else if i <? max_colors self - 1 then palette_color i
               else black).
Proof.
  intros Hi Hidx.
  destruct (assign_colors_to_blocks_rank (generate_color_palette self)
              (count_block_frequencies img_blocks) i blk cnt
              (Counter_keys_NoDup img_blocks) Hi Hidx) as [m [Hm Hget]].
  exists m. split; [exact Hm|]. rewrite Hget. f_equal.
  rewrite palette_length.
  destruct (Z.eqb_spec i 0) as [->|Hnz].
  - destruct (Z.ltb_spec 0 (Z.max 2 (max_colors self) - 1)); [|lia].
    now rewrite palette_shape.
  - destruct (Z.ltb_spec i (max_colors self - 1)).
    + destruct (Z.ltb_spec i (Z.max 2 (max_colors self) - 1)); [|lia].
      apply nth_error_nth. apply index_inv; [exact Hi|].
      apply palette_middle. lia.
    + destruct (Z.ltb_spec i (Z.max 2 (max_colors self) - 1));
        [lia|reflexivity].
Qed.

(** Every key of the colour map has a rank. *)
Lemma color_map_key_rank (self : ECBImageProcessor) (img_blocks : list block)
    (block_color_map : Dict.t (K:=block) (V:=color)) (blk : block) (c : color) :
  assign_colors_to_blocks (count_block_frequencies img_blocks)
                          (generate_color_palette self) =
    Ok block_color_map ->
  Dict.get block_eqb block_color_map blk = Some c ->
  exists i cnt,
    0 <= i /\
    Py.index (sorted_blocks (count_block_frequencies img_blocks)) i =
      Ok (blk, cnt).
Proof.
  intros Hm Hget.
  rewrite assign_colors_to_blocks_ok in Hm
    by apply Counter_keys_NoDup.
  inversion Hm as [Hm']. clear Hm. subst block_color_map.
  apply get_Some_In in Hget. apply in_map_iff in Hget.
  destruct Hget as [[i [b cnt]] [Heq Hin]]. cbn [fst snd] in Heq.
  inversion Heq; subst b. apply enumerate_In in Hin.
  destruct Hin as [Hi Hnth]. exists i, cnt. split; [lia|].
  apply index_nth_error; [lia|exact Hnth].
Qed.

(** X7.  For any [max_colors], white marks exactly the top-ranked block,
    and that block is a most frequent one: no block occurs more often. *)
Theorem X7_white_is_most_frequent (self : ECBImageProcessor)
    (img_blocks : list block) (top : block) (cnt : Z) :
  Py.index (sorted_blocks (count_block_frequencies img_blocks)) 0 =
    Ok (top, cnt) ->
  exists block_color_map,
    assign_colors_to_blocks (count_block_frequencies img_blocks)
                            (generate_color_palette self) =
      Ok block_color_map /\
    (forall blk,
        Dict.get block_eqb block_color_map blk = Some white <-> blk = top) /\
    cnt = occurrences top img_blocks /\
    forall blk, occurrences blk img_blocks <= cnt.
Proof.
  intros Htop.
  destruct (rank_color self img_blocks 0 top cnt ltac:(lia) Htop)
    as [m [Hm Hget]].
  cbn [Z.eqb] in Hget.
  pose proof (index_inv _ _ _ (Z.le_refl 0) Htop) as Hnth.
  change (Z.to_nat 0) with 0%nat in Hnth.
  assert (Hin : In (top, cnt)
                   (sorted_blocks (count_block_frequencies img_blocks)))
    by (eapply nth_error_In; exact Hnth).
  apply ranking_In in Hin. destruct Hin as [Hin Hcnt].
  exists m. split; [exact Hm|]. split; [|split; [exact Hcnt|]].
  - intros blk. split; [|intros ->; exact Hget].
    intros Hw.
    destruct (color_map_key_rank self img_blocks m blk white Hm Hw)
      as [i [c [Hi Hidx]]].
    destruct (rank_color self img_blocks i blk c Hi Hidx)
      as [m' [Hm' Hget']].
    rewrite Hm in Hm'. inversion Hm'; subst m'. rewrite Hw in Hget'.
    destruct (Z.eqb_spec i 0) as [->|Hnz].
    + rewrite Htop in Hidx. now inversion Hidx.
    + exfalso. destruct (i <? max_colors self - 1).
      * inversion Hget' as [[H1 H2 H3]]. clear - H1.
        Z.div_mod_to_equations. lia.
      * discriminate.
  - intros blk.
    destruct (in_dec block_eq_dec blk img_blocks) as [Hb|Hb].
    + assert (Hr : In (blk, occurrences blk img_blocks)
                      (sorted_blocks (count_block_frequencies img_blocks)))
        by (apply ranking_In; now split).
      apply In_nth_error in Hr. destruct Hr as [n Hn].
      destruct n as [|n].
      * rewrite Hnth in Hn. inversion Hn. lia.
      * pose proof (StronglySorted_nth_error _ _ 0%nat (S n) _ _
                      (ranking_sorted img_blocks) ltac:(lia) Hnth Hn) as Hs.
        cbn [fst snd] in Hs. lia.
    + assert (occurrences blk img_blocks = 0).
      { pose proof (occurrences_pos blk img_blocks) as Hp.
        pose proof (len_nonneg (filter (block_eqb blk) img_blocks)).
        unfold occurrences in *. 
        destruct (Z.eq_dec (Py.len (filter (block_eqb blk) img_blocks)) 0);
          [assumption|].
        exfalso. apply Hb, Hp. lia. }
      apply occurrences_pos in Hin. lia.
Qed.

Lemma X7_white_is_most_frequent_witness :
  exists block_color_map,
    assign_colors_to_blocks
      (count_block_frequencies [repeat x01 16; zeros 16; zeros 16])
      (generate_color_palette (default_processor "ct.bin")) =
      Ok block_color_map /\
    Dict.get block_eqb block_color_map (zeros 16) = Some white.
Proof.
  destruct (X7_white_is_most_frequent (default_processor "ct.bin")
              [repeat x01 16; zeros 16; zeros 16] (zeros 16) 2 eq_refl)
    as [m [Hm [Hw _]]].
  exists m. split; [exact Hm|]. now apply Hw.
Defined.

(** X8.  With [max_colors <= 2] the palette is just white and black and
    the image is two-tone: every distinct block other than the top-ranked
    one is black. *)
Theorem X8_two_tone (self : ECBImageProcessor) (img_blocks : list block) :
  max_colors self <= 2 ->
  generate_color_palette self = [white; black] /\
  exists block_color_map,
    assign_colors_to_blocks (count_block_frequencies img_blocks)
                            (generate_color_palette self) =
      Ok block_color_map /\
    forall i blk cnt,
      0 <= i ->
      Py.index (sorted_blocks (count_block_frequencies img_blocks)) i =
        Ok (blk, cnt) ->
      Dict.get block_eqb block_color_map blk =
      Some (if i =? 0 then white else black).
Proof.
  intros Hmc. split.
  - rewrite palette_shape.
    replace (Z.to_nat (max_colors self - 2)) with 0%nat by lia.
    reflexivity.
  - destruct (assign_colors_to_blocks_total self img_blocks) as [m Hm].
    exists m. split; [exact Hm|]. intros i blk cnt Hi Hidx.
    destruct (rank_color self img_blocks i blk cnt Hi Hidx)
      as [m' [Hm' Hget]].
    rewrite Hm in Hm'. inversion Hm'; subst m'. rewrite Hget.
    destruct (Z.eqb_spec i 0); [reflexivity|].
    destruct (Z.ltb_spec i (max_colors self - 1)); [lia|reflexivity].
Qed.

Lemma X8_two_tone_witness :
  generate_color_palette (init "ct.bin" 16 2 true 16) = [white; black] /\
  exists block_color_map,
    assign_colors_to_blocks
      (count_block_frequencies [zeros 16; repeat x01 16; repeat x02 16])
      (generate_color_palette (init "ct.bin" 16 2 true 16)) =
      Ok block_color_map /\
    Dict.get block_eqb block_color_map (repeat x02 16) = Some black.
Proof.
  destruct (X8_two_tone (init "ct.bin" 16 2 true 16)
              [zeros 16; repeat x01 16; repeat x02 16])
    as [Hp [m [Hm Hr]]].
  - simpl. lia.
  - split; [exact Hp|]. exists m. split; [exact Hm|].
    apply (Hr 2 (repeat x02 16) 1); [lia|reflexivity].
Defined.

(** ** The palette formula *)

Lemma palette_color_shift (i q : Z) :
  palette_color (i + 51 * q) = palette_color i.
Proof.
  unfold palette_color.
  replace ((i + 51 * q) * 50) with (i * 50 + (10 * q) * 255) by lia.
  replace ((i + 51 * q) * 80) with (i * 80 + (16 * q) * 255) by lia.
  replace ((i + 51 * q) * 110) with (i * 110 + (22 * q) * 255) by lia.
  now rewrite !Z.mod_add by lia.
Qed.

(** X9.  The formula colours collide exactly at indices that differ by a
    multiple of 51, so it produces 51 distinct colours; it is black exactly
    at the multiples of 51 and never white. *)
Theorem X9_palette_collisions (i j : Z) :
  (palette_color i = palette_color j <-> (i - j) mod 51 = 0) /\
  (palette_color i = black <-> i mod 51 = 0) /\
  palette_color i <> white.
Proof.
  split; [|split].
  - split.
    + intros H. unfold palette_color in H. inversion H as [[H1 H2 H3]].
      clear H H2 H3. Z.div_mod_to_equations. lia.
    + intros H.
      replace i with (j + 51 * ((i - j) / 51)).
      * apply palette_color_shift.
      * pose proof (Z.div_mod (i - j) 51 ltac:(lia)). lia.
  - split.
    + intros H. unfold palette_color, black in H.
      inversion H as [[H1 H2 H3]]. clear H H2 H3.
      Z.div_mod_to_equations. lia.
    + intros H.
      replace i with (0 + 51 * (i / 51))
        by (pose proof (Z.div_mod i 51 ltac:(lia)); lia).
      now rewrite palette_color_shift.
  - intros H. unfold palette_color, white in H.
    inversion H as [[H1 H2 H3]]. clear H H2 H3.
    Z.div_mod_to_equations. lia.
Qed.

(** ** Colours are valid *)

Lemma palette_color_valid (i : Z) : valid_rgb (palette_color i).
Proof.
  unfold valid_rgb, palette_color.
  pose proof (Z.mod_pos_bound (i * 50) 255 ltac:(lia)).
  pose proof (Z.mod_pos_bound (i * 80) 255 ltac:(lia)).
  pose proof (Z.mod_pos_bound (i * 110) 255 ltac:(lia)).
  lia.
Qed.

Lemma palette_valid (self : ECBImageProcessor) :
  Forall valid_rgb (generate_color_palette self).
Proof.
  rewrite palette_shape. constructor; [unfold valid_rgb, white; lia|].
  apply Forall_app. split.
  - apply Forall_forall. intros c Hc. apply in_map_iff in Hc.
    destruct Hc as [i [<- _]]. apply palette_color_valid.
  - repeat constructor; unfold valid_rgb, black; lia.
Qed.

(** Every pixel is the colour looked up for one of the blocks. *)
Lemma map_blocks_to_colors_In (self : ECBImageProcessor)
    (img_blocks : list block) (block_color_map : Dict.t (K:=block) (V:=color))
    (pixel_colors : list color) (c : color) :
  map_blocks_to_colors self img_blocks block_color_map = Ok pixel_colors ->
  In c pixel_colors ->
  exists blk,
    In blk img_blocks /\
    c = Dict.get_default block_eqb block_color_map blk black.
Proof.
  intros Hm Hc. destruct (Z.eq_dec (pixels_per_block self) 0) as [Hz|Hnz].
  - destruct img_blocks as [|b l].
    + inversion Hm; subst. contradiction.
    + unfold map_blocks_to_colors in Hm. cbn [for_in] in Hm.
      unfold Py.floordiv in Hm. rewrite Hz in Hm. discriminate.
  - rewrite map_blocks_to_colors_ok in Hm by exact Hnz.
    inversion Hm; subst pixel_colors. apply in_flat_map in Hc.
    destruct Hc as [blk [Hb Hin]]. apply repeat_spec in Hin.
    now exists blk.
Qed.

(** X10.  Every pixel a run computes is a valid RGB triple: each component
    lies between 0 and 255, whatever [max_colors] and the input are. *)
Theorem X10_pixels_are_valid_rgb (self : ECBImageProcessor)
    (img_blocks : list block) (block_color_map : Dict.t (K:=block) (V:=color))
    (pixel_colors : list color) :
  assign_colors_to_blocks (count_block_frequencies img_blocks)
                          (generate_color_palette self) =
    Ok block_color_map ->
  map_blocks_to_colors self img_blocks block_color_map = Ok pixel_colors ->
  Forall valid_rgb (generate_color_palette self) /\
  Forall valid_rgb pixel_colors.
Proof.
  intros Ha Hm. split; [apply palette_valid|].
  apply Forall_forall. intros c Hc.
  destruct (map_blocks_to_colors_In self img_blocks block_color_map
              pixel_colors c Hm Hc) as [blk [_ ->]].
  unfold Dict.get_default.
  destruct (Dict.get block_eqb block_color_map blk) as [c'|] eqn:E;
    [|unfold valid_rgb, black; lia].
  destruct (color_map_key_rank self img_blocks block_color_map blk c' Ha E)
    as [i [cnt [Hi Hidx]]].
  destruct (rank_color self img_blocks i blk cnt Hi Hidx) as [m [Hm' Hget]].
  rewrite Ha in Hm'. inversion Hm'; subst m. rewrite E in Hget.
  inversion Hget; subst c'.
  destruct (i =? 0); [unfold valid_rgb, white; lia|].
  destruct (i <? max_colors self - 1);
    [apply palette_color_valid|unfold valid_rgb, black; lia].
Qed.

Lemma X10_pixels_are_valid_rgb_witness :
  Forall valid_rgb [white; white; (50, 80, 110); (50, 80, 110)].
Proof.
  exact (proj2 (X10_pixels_are_valid_rgb (init "ct.bin" 16 254 true 8)
                  [zeros 16; repeat x01 16]
                  [(zeros 16, white); (repeat x01 16, (50, 80, 110))]
                  [white; white; (50, 80, 110); (50, 80, 110)]
                  eq_refl eq_refl)).
Defined.

(** ** Expansion *)

(** X11.  The expansion works block by block: the pixel sequence of a
    concatenation of block lists is the concatenation of their pixel
    sequences, and a block missing from the colour map is drawn black. *)
Theorem X11_expansion_distributes (self : ECBImageProcessor)
    (l1 l2 : list block) (block_color_map : Dict.t (K:=block) (V:=color)) :
  pixels_per_block self <> 0 ->
  exists px1 px2,
    map_blocks_to_colors self l1 block_color_map = Ok px1 /\
    map_blocks_to_colors self l2 block_color_map = Ok px2 /\
    map_blocks_to_colors self (l1 ++ l2) block_color_map = Ok (px1 ++ px2) /\
    forall blk,
      Dict.get block_eqb block_color_map blk = None ->
      map_blocks_to_colors self [blk] block_color_map =
      Ok (repeat black
                 (Z.to_nat (block_size self / pixels_per_block self))).
Proof.
  intros Hp. eexists _, _.
  split; [now apply map_blocks_to_colors_ok|].
  split; [now apply map_blocks_to_colors_ok|]. split.
  - rewrite map_blocks_to_colors_ok by exact Hp.
    now rewrite flat_map_app.
  - intros blk Hnone. rewrite map_blocks_to_colors_ok by exact Hp.
    cbn [flat_map]. unfold Dict.get_default. rewrite Hnone.
    now rewrite app_nil_r.
Qed.

Lemma X11_expansion_distributes_witness :
  map_blocks_to_colors (init "ct.bin" 16 254 true 8) [repeat x07 16]
                       [(zeros 16, white)] =
  Ok [black; black].
Proof.
  destruct (X11_expansion_distributes (init "ct.bin" 16 254 true 8)
              [zeros 16] [zeros 16] [(zeros 16, white)])
    as [px1 [px2 [_ [_ [_ H]]]]].
  - simpl. lia.
  - apply (H (repeat x07 16)). reflexivity.
Defined.

(** ** The raster *)

Lemma positions_app (t1 t2 : list event) :
  positions (t1 ++ t2) = positions t1 ++ positions t2.
Proof. unfold positions. apply flat_map_app. Qed.

Lemma flat_map_singleton {A B} (f : A -> B) (l : list A) :
  flat_map (fun a => [f a]) l = map f l.
Proof. induction l as [|a l IH]; cbn [flat_map map app]; congruence. Qed.

(** The trace of a non-empty image, with the positions of its points. *)
Lemma create_image_positions (self : ECBImageProcessor) (fs : filesystem)
    (pixel_colors : list color) :
  pixel_colors <> [] ->
  let n := Py.len pixel_colors in
  let w := Z.sqrt n in
  let h := if negb (n mod w =? 0) then n / w + 1 else n / w in
  exists rest,
    snd (create_image self fs pixel_colors) = EvNew w h :: rest /\
    positions rest =
    map (fun k => (Z.of_nat k mod w,
                   if flip self then h - Z.of_nat k / w - 1
                   else Z.of_nat k / w))
        (seq 0 (length pixel_colors)).
Proof.
  intros Hne n w h.
  pose proof (create_image_nonempty self fs pixel_colors Hne) as Hc.
  cbv zeta in Hc. fold n w h in Hc. rewrite Hc.
  assert (Hpos : forall pts tl,
    positions tl = [] -> positions (pts ++ tl) = positions pts)
    by (intros pts tl Htl; now rewrite positions_app, Htl, app_nil_r).
  assert (Hfst : forall (idx : list Z) (l : list color),
             length idx = length l -> map fst (combine idx l) = idx).
  { induction idx as [|i idx IH]; intros [|a l] Hl;
      try discriminate; [reflexivity|].
    cbn [combine map fst]. f_equal. apply IH. now inversion Hl. }
  destruct (save_error fs (output_image_path self)); cbn [snd];
    (eexists; split; [reflexivity|]);
    rewrite Hpos by reflexivity;
    unfold positions;
    rewrite flat_map_concat_map, map_map, <- flat_map_concat_map,
      flat_map_singleton;
    unfold Py.enumerate;
    rewrite <- (map_map fst (fun i => (i mod w,
                                       if flip self then h - i / w - 1
                                       else i / w)));
    rewrite Hfst by (now rewrite length_map, length_seq);
    now rewrite map_map.
Qed.

(** X12.  A non-empty pixel sequence is drawn without loss: every point
    lies inside the image and no two pixels are drawn at the same point,
    with or without [flip], so no pixel overwrites another. *)
Theorem X12_points_inside_and_distinct (self : ECBImageProcessor)
    (fs : filesystem) (pixel_colors : list color) :
  pixel_colors <> [] ->
  exists img_width img_height rest,
    snd (create_image self fs pixel_colors) =
      EvNew img_width img_height :: rest /\
    Py.len (positions rest) = Py.len pixel_colors /\
    NoDup (positions rest) /\
    Forall (fun p => 0 <= fst p < img_width /\ 0 <= snd p < img_height)
           (positions rest).
Proof.
  intros Hne.
  destruct (create_image_positions self fs pixel_colors Hne)
    as [rest [Ht Hpos]].
  set (n := Py.len pixel_colors) in *.
  set (w := Z.sqrt n) in *.
  set (h := if negb (n mod w =? 0) then n / w + 1 else n / w) in *.
  assert (Hn : 0 < n).
  { unfold n, Py.len. destruct pixel_colors; [contradiction|].
    cbn [length]. lia. }
  assert (Hw : 0 < w) by (apply Z.sqrt_pos; exact Hn).
  destruct (height_is_ceiling n w Hw ltac:(lia)) as [_ [_ Hceil]].
  fold h in Hceil.
  exists w, h, rest. split; [exact Ht|]. rewrite Hpos.
  split; [|split].
  - unfold Py.len. now rewrite length_map, length_seq.
  - apply NoDup_nth_error. intros i j Hi Hij.
    rewrite length_map, length_seq in Hi.
    rewrite !nth_error_map, !nth_error_seq in Hij.
    destruct (Nat.ltb_spec i (length pixel_colors)); [|lia].
    destruct (Nat.ltb_spec j (length pixel_colors)); [|discriminate].
    cbn [option_map Nat.add] in Hij. inversion Hij as [[Hx Hy]].
    assert (Hd : Z.of_nat i / w = Z.of_nat j / w)
      by (destruct (flip self); lia).
    pose proof (placement_injective w (Z.of_nat i) (Z.of_nat j) Hw) as Hinj.
    rewrite Hx, Hd in Hinj. specialize (Hinj eq_refl). lia.
  - apply Forall_forall. intros p Hp. apply in_map_iff in Hp.
    destruct Hp as [k [<- Hk]]. apply in_seq in Hk. cbn [fst snd].
    destruct (placement_in_bounds n w h (Z.of_nat k) Hw Hceil)
      as [Hx [Hy Hy']]; [unfold n, Py.len; lia|].
    destruct (flip self); lia.
Qed.

Lemma X12_points_inside_and_distinct_witness :
  exists img_width img_height rest,
    snd (create_image (default_processor "ct.bin") (one_file [])
                      [white; black; white]) =
      EvNew img_width img_height :: rest /\
    NoDup (positions rest).
Proof.
  destruct (X12_points_inside_and_distinct (default_processor "ct.bin")
              (one_file []) [white; black; white] ltac:(discriminate))
    as [w [h [rest [Ht [_ [Hnd _]]]]]].
  exists w, h, rest. split; assumption.
Defined.

(** X13.  The image is roughly square and nearly full: its height is at
    least its width and at most its width plus 2, and fewer than [width]
    cells, less than one row, stay unfilled. *)
Theorem X13_roughly_square (self : ECBImageProcessor) (fs : filesystem)
    (pixel_colors : list color) :
  pixel_colors <> [] ->
  exists img_width img_height rest,
    snd (create_image self fs pixel_colors) =
      EvNew img_width img_height :: rest /\
    img_width <= img_height <= img_width + 2 /\
    0 <= img_width * img_height - Py.len pixel_colors < img_width.
Proof.
  intros Hne.
  pose proof (create_image_nonempty self fs pixel_colors Hne) as Hc.
  cbv zeta in Hc.
  set (n := Py.len pixel_colors) in *.
  set (w := Z.sqrt n) in *.
  set (h := if negb (n mod w =? 0) then n / w + 1 else n / w) in *.
  assert (Hn : 0 < n).
  { unfold n, Py.len. destruct pixel_colors; [contradiction|].
    cbn [length]. lia. }
  assert (Hw : 0 < w) by (apply Z.sqrt_pos; exact Hn).
  destruct (height_is_ceiling n w Hw ltac:(lia)) as [_ [Hlo Hhi]].
  fold h in Hlo, Hhi. specialize (Hlo Hn).
  pose proof (Z.sqrt_spec n ltac:(lia)) as Hs. fold w in Hs.
  unfold Z.succ in Hs.
  assert (Hnew : exists rest,
            snd (create_image self fs pixel_colors) = EvNew w h :: rest).
  { rewrite Hc. destruct (save_error fs (output_image_path self));
      cbn [snd]; eexists; reflexivity. }
  destruct Hnew as [rest Hrest].
  exists w, h, rest. split; [exact Hrest|]. split; nia.
Qed.

Lemma X13_roughly_square_witness :
  exists img_width img_height rest,
    snd (create_image (default_processor "ct.bin") (one_file [])
                      [white; black; white]) =
      EvNew img_width img_height :: rest /\
    img_width <= img_height <= img_width + 2.
Proof.
  destruct (X13_roughly_square (default_processor "ct.bin") (one_file [])
              [white; black; white] ltac:(discriminate))
    as [w [h [rest [Ht [Hsq _]]]]].
  exists w, h, rest. split; assumption.
Defined.

(** ** Outcomes of a run *)

Lemma map_blocks_to_colors_zero_divisor (self : ECBImageProcessor)
    (blk : block) (l : list block)
    (block_color_map : Dict.t (K:=block) (V:=color)) :
  pixels_per_block self = 0 ->
  map_blocks_to_colors self (blk :: l) block_color_map =
  Raise ZeroDivisionError.
Proof.
  intros Hz. unfold map_blocks_to_colors. cbn [for_in].
  unfold Py.floordiv. rewrite Hz. reflexivity.
Qed.

Lemma process_image_raise_in_map (self : ECBImageProcessor) (fs : filesystem)
    (img_data : bytes) (t : list event) (img_blocks : list block)
    (block_color_map : Dict.t (K:=block) (V:=color)) (e : exn) :
  read_image_bytes self fs = (Ok img_data, t) ->
  break_into_blocks self img_data = Ok img_blocks ->
  assign_colors_to_blocks (count_block_frequencies img_blocks)
                          (generate_color_palette self) =
    Ok block_color_map ->
  map_blocks_to_colors self img_blocks block_color_map = Raise e ->
  process_image self fs = (Raise e, t).
Proof.
  intros Hr Hb Ha Hm. unfold process_image, lift.
  rewrite Hr, bind_ok. cbv beta. rewrite Hb, bind_ok. cbv beta zeta.
  rewrite Ha, bind_ok. cbv beta. rewrite Hm.
  cbn [bind fst snd app]. now rewrite app_nil_r.
Qed.





(** X16.  [pixels_per_block = 0] can never produce an image: with a
    readable input every such run stops with [ZeroDivisionError], in the
    truncation, in the expansion of the first block, or in the layout of
    an empty pixel sequence, and nothing is written. *)
Theorem X16_zero_pixels_per_block (self : ECBImageProcessor)
    (fs : filesystem) (data : bytes) :
  fs (image_path self) = Some data ->
  pixels_per_block self = 0 ->
  process_image self fs =
    (Raise ZeroDivisionError, [EvOpen (image_path self)]).
Proof.
  intros Hfs Hz. destruct (Z.eq_dec (block_size self) 0) as [Hb0|Hnz].
  - apply (process_image_nonpositive_block_size self fs data Hfs). lia.
  - pose proof (read_image_bytes_ok self fs data Hfs Hnz) as Hr.
    destruct (break_into_blocks_total self
              (Py.slice data 0
                 (Py.len data - Py.len data mod block_size self)) Hnz)
    as [blocks Hb].
    destruct (assign_colors_to_blocks_total self blocks) as [m Ha].
    destruct blocks as [|b l].
    + exact (process_image_no_pixels self fs _ _ _ _ Hr Hb Ha eq_refl).
    + apply (process_image_raise_in_map self fs _ _ _ _ _ Hr Hb Ha).
      now apply map_blocks_to_colors_zero_divisor.
Qed.

Lemma X16_zero_pixels_per_block_witness :
  process_image (init "ct.bin" 16 254 true 0) (one_file (zeros 32)) =
  (Raise ZeroDivisionError, [EvOpen "ct.bin"%string]).
Proof.
  exact (X16_zero_pixels_per_block (init "ct.bin" 16 254 true 0)
           (one_file (zeros 32)) (zeros 32) eq_refl eq_refl).
Defined.

(** ** What the picture shows *)

Lemma index_bound {A} (l : list A) (i : Z) (a : A) :
  0 <= i -> Py.index l i = Ok a -> i < Py.len l.
Proof.
  intros Hi H. apply index_inv in H; [|exact Hi].
  assert ((Z.to_nat i < length l)%nat) by (apply nth_error_Some; congruence).
  unfold Py.len. lia.
Qed.

(** X17.  With at most 51 distinct blocks, and fewer than [max_colors] of
    them, the colour map is injective: two blocks that receive the same
    colour are the same block, so equal pixels show equal ciphertext
    blocks. *)
Theorem X17_few_blocks_distinct_colors (self : ECBImageProcessor)
    (img_blocks : list block) :
  Py.len (sorted_blocks (count_block_frequencies img_blocks)) <= 51 ->
  Py.len (sorted_blocks (count_block_frequencies img_blocks))
    < max_colors self ->
  exists block_color_map,
    assign_colors_to_blocks (count_block_frequencies img_blocks)
                            (generate_color_palette self) =
      Ok block_color_map /\
    forall b1 b2 c,
      Dict.get block_eqb block_color_map b1 = Some c ->
      Dict.get block_eqb block_color_map b2 = Some c ->
      b1 = b2.
Proof.
  intros H51 Hmc.
  destruct (assign_colors_to_blocks_total self img_blocks) as [m Hm].
  exists m. split; [exact Hm|]. intros b1 b2 c H1 H2.
  destruct (color_map_key_rank self img_blocks m b1 c Hm H1)
    as [i [c1 [Hi Hidx1]]].
  destruct (color_map_key_rank self img_blocks m b2 c Hm H2)
    as [j [c2 [Hj Hidx2]]].
  pose proof (index_bound _ _ _ Hi Hidx1) as Hib.
  pose proof (index_bound _ _ _ Hj Hidx2) as Hjb.
  destruct (rank_color self img_blocks i b1 c1 Hi Hidx1) as [m1 [Hm1 Hg1]].
  destruct (rank_color self img_blocks j b2 c2 Hj Hidx2) as [m2 [Hm2 Hg2]].
  rewrite Hm in Hm1, Hm2. inversion Hm1; inversion Hm2; subst m1 m2.
  rewrite H1 in Hg1. rewrite H2 in Hg2.
  destruct (Z.eq_dec i j) as [->|Hne].
  { rewrite Hidx1 in Hidx2. now inversion Hidx2. }
  exfalso.
  assert (Hcol : forall a b, 0 <= a < b -> b < 51 -> b < max_colors self - 1 ->
    (if a =? 0 then white
     else if a <? max_colors self - 1 then palette_color a else black) <>
    (if b =? 0 then white
     else if b <? max_colors self - 1 then palette_color b else black)).
  { intros a b Hab Hb Hbm.
    destruct (Z.eqb_spec b 0); [lia|].
    destruct (Z.ltb_spec b (max_colors self - 1)); [|lia].
    destruct (palette_color_not_sentinel b ltac:(lia)) as [Hw _].
    destruct (Z.eqb_spec a 0); [congruence|].
    destruct (Z.ltb_spec a (max_colors self - 1)); [|lia].
    apply palette_color_injective; lia. }
  destruct (Z.lt_ge_cases i j).
  - apply (Hcol i j); [lia|lia|lia|congruence].
  - apply (Hcol j i); [lia|lia|lia|congruence].
Qed.

Lemma X17_few_blocks_distinct_colors_witness :
  exists block_color_map,
    assign_colors_to_blocks
      (count_block_frequencies [zeros 16; repeat x01 16; zeros 16])
      (generate_color_palette (default_processor "ct.bin")) =
      Ok block_color_map /\
    forall b1 b2 c,
      Dict.get block_eqb block_color_map b1 = Some c ->
      Dict.get block_eqb block_color_map b2 = Some c ->
      b1 = b2.
Proof.
  apply (X17_few_blocks_distinct_colors (default_processor "ct.bin")
           [zeros 16; repeat x01 16; zeros 16]);
    vm_compute; [discriminate|reflexivity].
Defined.

(** X18.  An input that repeats a single block is drawn entirely white:
    the block is the top-ranked one, whatever [max_colors] is. *)
Theorem X18_constant_input_is_white (self : ECBImageProcessor)
    (blk : block) (n : nat) :
  pixels_per_block self <> 0 ->
  exists block_color_map pixel_colors,
    assign_colors_to_blocks (count_block_frequencies (repeat blk (S n)))
                            (generate_color_palette self) =
      Ok block_color_map /\
    map_blocks_to_colors self (repeat blk (S n)) block_color_map =
      Ok pixel_colors /\
    Py.len pixel_colors =
      Z.of_nat (S n) * Z.max 0 (block_size self / pixels_per_block self) /\
    Forall (fun c => c = white) pixel_colors.
Proof.
  intros Hp.
  set (img_blocks := repeat blk (S n)).
  assert (Hin : In blk img_blocks) by (now left).
  assert (Hr : In (blk, occurrences blk img_blocks)
                  (sorted_blocks (count_block_frequencies img_blocks)))
    by (apply ranking_In; now split).
  destruct (sorted_blocks (count_block_frequencies img_blocks))
    as [|[top cnt] rest] eqn:Hrank; [contradiction|].
  assert (Htop : top = blk).
  { assert (Ht : In (top, cnt)
                    (sorted_blocks (count_block_frequencies img_blocks)))
      by (rewrite Hrank; now left).
    apply ranking_In in Ht. destruct Ht as [Ht _].
    now apply repeat_spec in Ht. }
  subst top.
  destruct (rank_color self img_blocks 0 blk cnt ltac:(lia))
    as [m [Hm Hget]]; [now rewrite Hrank|].
  cbn [Z.eqb] in Hget.
  destruct (map_blocks_to_colors_length self m img_blocks Hp)
    as [px [Hpx Hlen]].
  exists m, px. split; [exact Hm|]. split; [exact Hpx|]. split.
  - rewrite Hlen. unfold img_blocks, Py.len. now rewrite repeat_length.
  - apply Forall_forall. intros c Hc.
    destruct (map_blocks_to_colors_In self img_blocks m px c Hpx Hc)
      as [b [Hb ->]].
    apply repeat_spec in Hb. subst b.
    unfold Dict.get_default. now rewrite Hget.
Qed.

Lemma X18_constant_input_is_white_witness :
  exists block_color_map pixel_colors,
    assign_colors_to_blocks
      (count_block_frequencies (repeat (repeat x2a 16) 3))
      (generate_color_palette (init "ct.bin" 16 254 true 8)) =
      Ok block_color_map /\
    map_blocks_to_colors (init "ct.bin" 16 254 true 8)
                         (repeat (repeat x2a 16) 3) block_color_map =
      Ok pixel_colors /\
    Forall (fun c => c = white) pixel_colors.
Proof.
  destruct (X18_constant_input_is_white (init "ct.bin" 16 254 true 8)
              (repeat x2a 16) 2) as [m [px [Hm [Hpx [_ Hw]]]]].
  - simpl. lia.
  - exists m, px. repeat split; assumption.
Defined.
